(** * Rupture geometry of point-like seismic sources and the geodetic helpers

    A shallow embedding of two modules of the repository:

    - [nhe/geo/_utils.py]: [clean_points], [line_intersects_itself],
      [get_longitudinal_extent], [get_spherical_bounding_box] and
      [get_stereographic_projection] (module [GeoUtils] below);
    - [openquake/hazardlib/source/point.py]: the class [PointSource] with
      [_get_rupture_dimensions], [_get_rupture_surface] and
      [_iter_ruptures_at_location] (module [PointSrc] below).

    Python numbers are idealised: the longitudes and latitudes of [_utils.py]
    are exact rationals ([Q], so every function of that module evaluates),
    and the quantities of [point.py], which go through [math.sqrt],
    [math.sin], [math.cos] and [math.tan], are real numbers ([R]).  Python
    exceptions are values of the type [exn]; a function that can raise
    returns a [result]. *)

From Stdlib Require Import List Bool Arith ZArith Lia.
From Stdlib Require String.
From Stdlib Require Import QArith Qminmax.
From Stdlib Require Import Reals.
From Stdlib Require Import Psatz.
From Stdlib Require Floats.PrimFloat.
Import ListNotations.

(** ** Exceptions *)

(** The Python exceptions the embedded code can raise. *)
Inductive exn : Type :=
| AssertionError
| ValueError
| ZeroDivisionError
| RuntimeError.

(** A computation that either raises or returns a value. *)
Definition result (A : Type) : Type := (exn + A)%type.

Definition ret {A : Type} (a : A) : result A := inr a.
Definition raise {A : Type} (e : exn) : result A := inl e.

Definition bind {A B : Type} (m : result A) (k : A -> result B) : result B :=
  match m with
  | inl e => inl e
  | inr a => k a
  end.

(** [assert cond]. *)
Definition py_assert (cond : bool) : result unit :=
  if cond then ret tt else raise AssertionError.

Declare Scope py_scope.
Delimit Scope py_scope with py.
Notation "x <- m ;; k" := (bind m (fun x => k))
  (at level 61, m at next level, right associativity) : py_scope.
Notation "' p <- m ;; k" := (bind m (fun x => match x with p => k end))
  (at level 61, p pattern, m at next level, right associativity) : py_scope.
Notation "m ;;; k" := (bind m (fun _ => k))
  (at level 61, right associativity) : py_scope.

(** * nhe/geo/_utils.py *)

Module GeoUtils.

Local Open Scope Q_scope.
Local Open Scope py_scope.

(** ** Comparisons on Python numbers *)

Definition Qltb (x y : Q) : bool := negb (Qle_bool y x).
Definition Qleb (x y : Q) : bool := Qle_bool x y.

(** ** Points *)

(** [nhe.geo.point.Point]: longitude, latitude and depth (km, positive
    downward). *)
Record Point : Type := mkPoint {
  longitude : Q;
  latitude : Q;
  depth : Q
}.

(** ** clean_points *)

Section CleanPoints.

(** The class [Point] is not among the source files: its [__eq__] is a
    parameter of what follows, and [a != b] is its negation. *)
Variable point_eq : Point -> Point -> bool.

Definition point_ne (a b : Point) : bool := negb (point_eq a b).

(** One turn of the loop [for point in points]: [result[-1]] is the last
    element of [result], and [result.append(point)] extends it at the end. *)
Definition clean_points_step (p0 : Point) (result : list Point) (point : Point)
  : list Point :=
  if point_ne point (last result p0) then result ++ [point] else result.

Definition clean_points (points : list Point) : list Point :=
  match points with
  | [] => points
  | p0 :: _ => fold_left (clean_points_step p0) points [p0]
  end.

(** The specification's [cleanAdjacentDuplicates], in its own words: the
    first point is kept, and a later point is removed exactly when it equals
    the immediately preceding retained point. *)
Fixpoint drop_repeats_of (retained : Point) (rest : list Point) : list Point :=
  match rest with
  | [] => []
  | q :: rest' =>
      if point_eq q retained then drop_repeats_of retained rest'
      else q :: drop_repeats_of q rest'
  end.

Definition cleanAdjacentDuplicates (points : list Point) : list Point :=
  match points with
  | [] => []
  | p :: rest => p :: drop_repeats_of p rest
  end.

End CleanPoints.

(** Modelled from the spec: the equality of the class [Point], which is not
    among the source files; section 3 of the specification says that
    equality of points is exact on all three fields. *)
Definition Point_eq (a b : Point) : bool :=
  Qeq_bool (longitude a) (longitude b)
  && Qeq_bool (latitude a) (latitude b)
  && Qeq_bool (depth a) (depth b).

(** ** get_longitudinal_extent *)

Definition get_longitudinal_extent (lon1 lon2 : Q) : Q :=
  let extent := lon2 - lon1 in
  if Qltb 180 extent then -360 + extent
  else if Qltb extent (-180) then 360 + extent
  else extent.

(** ** get_spherical_bounding_box *)

(** [numpy.max], [numpy.min] and the builtins [max] and [min]: all four raise
    [ValueError] on an empty sequence. *)
Definition py_max (xs : list Q) : result Q :=
  match xs with
  | [] => raise ValueError
  | x :: rest => ret (fold_left Qmax rest x)
  end.

Definition py_min (xs : list Q) : result Q :=
  match xs with
  | [] => raise ValueError
  | x :: rest => ret (fold_left Qmin rest x)
  end.

(** [-180 < lon <= 180]. *)
Definition valid_lon (lon : Q) : bool := Qltb (-180) lon && Qleb lon 180.

(** The test of the generator given to [all]: the longitude lies at a
    non-negative extent both from [west] and to [east]. *)
Definition within_arc (west east lon : Q) : bool :=
  Qleb 0 (get_longitudinal_extent west lon)
  && Qleb 0 (get_longitudinal_extent lon east).

Definition get_spherical_bounding_box (lons lats : list Q)
  : result (Q * Q * Q * Q) :=
  north <- py_max lats ;;
  south <- py_min lats ;;
  west <- py_min lons ;;
  east <- py_max lons ;;
  py_assert (valid_lon west && valid_lon east) ;;;
  if Qltb (get_longitudinal_extent west east) 0 then
    west <- py_min (filter (fun lon => Qltb 0 lon) lons) ;;
    east <- py_max (filter (fun lon => Qltb lon 0) lons) ;;
    if negb (forallb (within_arc west east) lons) then raise RuntimeError
    else ret (west, east, north, south)
  else ret (west, east, north, south).

(** What the docstring and the specification call the longitudinal extent of
    a collection: the points fit in a half circle when some arc of 180
    degrees, going east from a longitude [w], holds every longitude of the
    collection up to whole turns; the collection spans more than 180 degrees
    when no such arc exists. *)
Definition in_half_circle_from (w lon : Q) : Prop :=
  exists k : Z, 0 <= lon - w + 360 * inject_Z k <= 180.

Definition fits_half_circle (lons : list Q) : Prop :=
  exists w : Q, forall lon, In lon lons -> in_half_circle_from w lon.

Definition spans_more_than_180 (lons : list Q) : Prop :=
  ~ fits_half_circle lons.

(** The collection fits in an arc strictly shorter than 180 degrees. *)
Definition fits_shorter_arc (lons : list Q) : Prop :=
  exists w width : Q,
    width < 180
    /\ forall lon, In lon lons ->
                   exists k : Z, 0 <= lon - w + 360 * inject_Z k <= width.

(** ** get_stereographic_projection *)

(** The parameters given to [pyproj.Proj(proj='stere', ...)]. *)
Record Proj : Type := mkProj {
  lat_0 : Q;
  lon_0 : Q
}.

Definition get_stereographic_projection (west east north south : Q) : Proj :=
  let middle_lat := (north + south) / 2 in
  let middle_lon := west + get_longitudinal_extent west east / 2 in
  let middle_lon :=
    if Qltb 180 middle_lon then middle_lon - 360 else middle_lon in
  mkProj middle_lat middle_lon.

(** ** line_intersects_itself *)

(** [numpy.roll(xs, 1)]: the last element becomes the first. *)
Definition numpy_roll1 (xs : list Q) : list Q :=
  match xs with
  | [] => []
  | x :: _ => last xs x :: removelast xs
  end.

Section LineIntersectsItself.

(** The two external collaborators: applying a [pyproj] projection to
    lists of longitudes and latitudes, and [shapely]'s
    [LineString(...).is_simple]. *)
Variable proj_apply : Proj -> list Q -> list Q -> list Q * list Q.
Variable is_simple : list (Q * Q) -> bool.

Definition line_intersects_itself (lons lats : list Q) (closed_shape : bool)
  : result bool :=
  py_assert (Nat.eqb (length lons) (length lats)) ;;;
  if Nat.leb (length lons) 3 then ret false
  else
    '(west, east, north, south) <- get_spherical_bounding_box lons lats ;;
    let proj := get_stereographic_projection west east north south in
    let '(xx, yy) := proj_apply proj lons lats in
    if negb (is_simple (combine xx yy)) then ret true
    else if closed_shape then
      let '(xx, yy) := proj_apply proj (numpy_roll1 lons) (numpy_roll1 lats) in
      if negb (is_simple (combine xx yy)) then ret true
      else ret false
    else ret false.

End LineIntersectsItself.

(** ** Notions used to state what the functions keep *)

(** No point of the list compares equal to the point just before it. *)
Fixpoint no_adjacent_repeats (point_eq : Point -> Point -> bool)
  (points : list Point) : Prop :=
  match points with
  | [] => True
  | x :: rest =>
      match rest with
      | [] => True
      | y :: _ => point_eq y x = false /\ no_adjacent_repeats point_eq rest
      end
  end.

(** [sub] is [full] with some elements left out, the order kept. *)
Inductive subsequence {A : Type} : list A -> list A -> Prop :=
| subsequence_nil : subsequence [] []
| subsequence_keep : forall x sub full,
    subsequence sub full -> subsequence (x :: sub) (x :: full)
| subsequence_skip : forall x sub full,
    subsequence sub full -> subsequence sub (x :: full).

End GeoUtils.


(** * openquake/hazardlib/source/point.py *)

Module PointSrc.

Local Open Scope R_scope.
Local Open Scope py_scope.

(** ** The [math] module and Python arithmetic on reals *)

(** A float is read as the real number it stands for, and every operation
    is exact.  [PointSrcBinary64], below, gives the rounded reading of the
    two methods whose results depend on the difference. *)

Definition Rltb (x y : R) : bool := if Rlt_dec x y then true else false.
Definition Rleb (x y : R) : bool := if Rle_dec x y then true else false.
Definition Rgtb (x y : R) : bool := Rltb y x.
Definition Rgeb (x y : R) : bool := Rleb y x.

(** [math.radians]. *)
Definition math_radians (x : R) : R := x * PI / 180.

(** [math.sqrt] raises [ValueError] on a negative argument. *)
Definition math_sqrt (x : R) : result R :=
  if Rlt_dec x 0 then raise ValueError else ret (sqrt x).

(** [x / y] raises [ZeroDivisionError] when [y] is zero. *)
Definition py_div (x y : R) : result R :=
  if Req_dec_T y 0 then raise ZeroDivisionError else ret (x / y).

(** [x % y] for a positive [y]: [x - y * floor (x / y)]. *)
Definition py_mod (x y : R) : R := x - y * IZR (Int_part (x / y)).

(** [float(x)] of a probability of a PMF. *)
Definition py_float (x : R) : R := x.

(** ** Data *)

(** [openquake.hazardlib.geo.Point]. *)
Record Point : Type := mkPoint {
  longitude : R;
  latitude : R;
  depth : R
}.

(** [openquake.hazardlib.geo.nodalplane.NodalPlane]. *)
Record NodalPlane : Type := mkNodalPlane {
  strike : R;
  dip : R;
  rake : R
}.

(** Modelled from the spec: the class [PlanarSurface] is not among the source
    files; it is the record of what [_get_rupture_surface] gives to its
    constructor, the mesh spacing, the strike, the dip and the four corners
    in the order top left, top right, bottom right, bottom left. *)
Record PlanarSurface : Type := mkPlanarSurface {
  mesh_spacing : R;
  surface_strike : R;
  surface_dip : R;
  top_left : Point;
  top_right : Point;
  bottom_right : Point;
  bottom_left : Point
}.

(** [type(self)]: a point source or the area source that inherits
    [_iter_ruptures_at_location] from it. *)
Inductive source_class : Type :=
| PointSourceClass
| AreaSourceClass.

(** The attributes of a [PointSource].  [get_annual_occurrence_rates] is what
    the method of that name returns for the source's [mfd], and
    [get_median_area] is the method of its magnitude-scaling relationship. *)
Record PointSource : Type := mkPointSource {
  type_of_self : source_class;
  source_id : String.string;
  name : String.string;
  tectonic_region_type : String.string;
  get_annual_occurrence_rates : list (R * R);
  rupture_mesh_spacing : R;
  get_median_area : R -> R -> R;
  rupture_aspect_ratio : R;
  upper_seismogenic_depth : R;
  lower_seismogenic_depth : R;
  location : Point;
  nodal_plane_distribution : list (R * NodalPlane);
  hypocenter_distribution : list (R * R)
}.

(** [PointSource.__init__]; the constructor of the base class is not among
    the source files and is taken to store its arguments. *)
Definition __init__ (cls : source_class) (source_id name trt : String.string)
  (mfd : list (R * R)) (rupture_mesh_spacing : R)
  (magnitude_scaling_relationship : R -> R -> R) (rupture_aspect_ratio : R)
  (upper_seismogenic_depth lower_seismogenic_depth : R) (location : Point)
  (nodal_plane_distribution : list (R * NodalPlane))
  (hypocenter_distribution : list (R * R)) : result PointSource :=
  if Rlt_dec upper_seismogenic_depth 0 then raise ValueError
  else if negb (Rgtb lower_seismogenic_depth upper_seismogenic_depth)
  then raise ValueError
  else if negb (forallb
                  (fun '(prob, depth) =>
                     Rleb upper_seismogenic_depth depth
                     && Rleb depth lower_seismogenic_depth)
                  hypocenter_distribution)
  then raise ValueError
  else ret (mkPointSource cls source_id name trt mfd rupture_mesh_spacing
              magnitude_scaling_relationship rupture_aspect_ratio
              upper_seismogenic_depth lower_seismogenic_depth location
              nodal_plane_distribution hypocenter_distribution).

(** The record a rupture is yielded as: the arguments of
    [ProbabilisticRupture(...)], in order. *)
Record ProbabilisticRupture (TOM : Type) : Type := mkProbabilisticRupture {
  rup_mag : R;
  rup_rake : R;
  rup_tectonic_region_type : String.string;
  rup_hypocenter : Point;
  rup_surface : PlanarSurface;
  rup_source_typology : source_class;
  rup_occurrence_rate : R;
  rup_temporal_occurrence_model : TOM
}.

Arguments mkProbabilisticRupture {TOM}.
Arguments rup_mag {TOM}.
Arguments rup_rake {TOM}.
Arguments rup_tectonic_region_type {TOM}.
Arguments rup_hypocenter {TOM}.
Arguments rup_surface {TOM}.
Arguments rup_source_typology {TOM}.
Arguments rup_occurrence_rate {TOM}.
Arguments rup_temporal_occurrence_model {TOM}.

(** ** Generators *)

(** A generator run to its end: the values it yielded, in order, and the
    exception that stopped it, if one did. *)
Definition gen (A : Type) : Type := (list A * option exn)%type.

Definition gen_yield {A : Type} (a : A) : gen A := ([a], None).
Definition gen_raise {A : Type} (e : exn) : gen A := ([], Some e).

(** [for x in xs: body], where an exception raised by one turn ends the
    loop. *)
Fixpoint gen_for {X A : Type} (xs : list X) (body : X -> gen A) : gen A :=
  match xs with
  | [] => ([], None)
  | x :: rest =>
      match body x with
      | (out, Some e) => (out, Some e)
      | (out, None) =>
          let '(out', status) := gen_for rest body in (out ++ out', status)
      end
  end.

(** ** _get_rupture_dimensions *)

Definition _get_rupture_dimensions (self : PointSource) (mag : R)
  (nodal_plane : NodalPlane) : result (R * R) :=
  let area := get_median_area self mag (rake nodal_plane) in
  rup_length <- math_sqrt (area * rupture_aspect_ratio self) ;;
  rup_width <- py_div area rup_length ;;
  let seismogenic_layer_width :=
    lower_seismogenic_depth self - upper_seismogenic_depth self in
  max_width <- py_div seismogenic_layer_width
                 (sin (math_radians (dip nodal_plane))) ;;
  if Rgt_dec rup_width max_width then
    let rup_width := max_width in
    rup_length <- py_div area rup_width ;;
    ret (rup_length, rup_width)
  else ret (rup_length, rup_width).

(** ** _get_rupture_surface *)

Section RuptureSurface.

(** [Point.point_at(horizontal_distance, vertical_increment, azimuth)], the
    geodetic stepping primitive, is an external collaborator. *)
Variable point_at : Point -> R -> R -> R -> Point.

(** Lines 277 to 289: the vertical shift of the rupture center. *)
Definition vertical_shift (self : PointSource) (hypocenter : Point)
  (hheight : R) : R :=
  let vshift := upper_seismogenic_depth self - depth hypocenter + hheight in
  if Rlt_dec vshift 0 then
    let vshift :=
      lower_seismogenic_depth self - depth hypocenter - hheight in
    if Rgt_dec vshift 0 then 0 else vshift
  else vshift.

(** Lines 294 to 302: the rupture center.  The quotient
    [vshift / math.tan(rdip)] is the total division of the reals: this line
    is reached only after [_get_rupture_dimensions] divided by
    [math.sin(rdip)], so the sine is not zero, and the real tangent has no
    value only where the cosine is zero (a dip of 90 degrees), where the
    floating-point tangent is a large finite number and Python does not
    raise either. *)
Definition rupture_center_of (hypocenter : Point) (vshift rdip : R)
  (azimuth_up azimuth_down : R) : Point :=
  let rupture_center := hypocenter in
  if Req_dec_T vshift 0 then rupture_center
  else
    let hshift := Rabs (vshift / tan rdip) in
    point_at rupture_center hshift vshift
      (if Rlt_dec vshift 0 then azimuth_up else azimuth_down).

(** Lines 307 to 333: the four corners, from the rupture center. *)
Definition surface_around (self : PointSource) (nodal_plane : NodalPlane)
  (rupture_center : Point) (rup_length rup_proj_width rup_proj_height : R)
  (azimuth_right azimuth_down azimuth_left azimuth_up : R) : PlanarSurface :=
  let right_center := point_at rupture_center (rup_length / 2) 0 azimuth_right in
  let right_bottom :=
    point_at right_center (rup_proj_width / 2) (rup_proj_height / 2)
      azimuth_down in
  let right_top :=
    point_at right_bottom rup_proj_width (- rup_proj_height) azimuth_up in
  let left_top := point_at right_top rup_length 0 azimuth_left in
  let left_bottom := point_at right_bottom rup_length 0 azimuth_left in
  mkPlanarSurface (rupture_mesh_spacing self) (strike nodal_plane)
    (dip nodal_plane) left_top right_top right_bottom left_bottom.

Definition _get_rupture_surface (self : PointSource) (mag : R)
  (nodal_plane : NodalPlane) (hypocenter : Point) : result PlanarSurface :=
  py_assert (Rleb (upper_seismogenic_depth self) (depth hypocenter)
             && Rgeb (lower_seismogenic_depth self) (depth hypocenter)) ;;;
  let rdip := math_radians (dip nodal_plane) in
  let azimuth_right := strike nodal_plane in
  let azimuth_down := py_mod (azimuth_right + 90) 360 in
  let azimuth_left := py_mod (azimuth_down + 90) 360 in
  let azimuth_up := py_mod (azimuth_left + 90) 360 in
  '(rup_length, rup_width) <- _get_rupture_dimensions self mag nodal_plane ;;
  let rup_proj_height := rup_width * sin rdip in
  let rup_proj_width := rup_width * cos rdip in
  let hheight := rup_proj_height / 2 in
  let vshift := vertical_shift self hypocenter hheight in
  let rupture_center :=
    rupture_center_of hypocenter vshift rdip azimuth_up azimuth_down in
  ret (surface_around self nodal_plane rupture_center rup_length
         rup_proj_width rup_proj_height
         azimuth_right azimuth_down azimuth_left azimuth_up).

(** ** _iter_ruptures_at_location and iter_ruptures *)

(** The temporal occurrence model is handed over to each rupture as it
    is. *)
Variable TOM : Type.

(** [rate_scaling_factor] is an optional argument: [None] stands for a call
    that leaves it out, and its default is 1. *)
Definition _iter_ruptures_at_location (self : PointSource)
  (temporal_occurrence_model : TOM) (location : Point)
  (rate_scaling_factor : option R) : gen (ProbabilisticRupture TOM) :=
  let rate_scaling_factor :=
    match rate_scaling_factor with Some f => f | None => 1 end in
  if Rlt_dec 0 rate_scaling_factor then
    gen_for (get_annual_occurrence_rates self) (fun '(mag, mag_occ_rate) =>
      gen_for (nodal_plane_distribution self) (fun '(np_prob, np) =>
        gen_for (hypocenter_distribution self) (fun '(hc_prob, hc_depth) =>
          let hypocenter :=
            mkPoint (longitude location) (latitude location) hc_depth in
          let occurrence_rate :=
            mag_occ_rate * py_float np_prob * py_float hc_prob in
          let occurrence_rate := occurrence_rate * rate_scaling_factor in
          match _get_rupture_surface self mag np hypocenter with
          | inl e => gen_raise e
          | inr surface =>
              gen_yield
                (mkProbabilisticRupture mag (rake np)
                   (tectonic_region_type self) hypocenter surface
                   (type_of_self self) occurrence_rate
                   temporal_occurrence_model)
          end)))
  else gen_raise AssertionError.

Definition iter_ruptures (self : PointSource)
  (temporal_occurrence_model : TOM) : gen (ProbabilisticRupture TOM) :=
  _iter_ruptures_at_location self temporal_occurrence_model
    (location self) None.

End RuptureSurface.

(** ** The specification's enumeration order *)

(** One combination of a magnitude bin, a nodal plane and a hypocenter
    depth, each with its rate or probability. *)
Record combination : Type := mkCombination {
  c_mag : R;
  c_mag_occ_rate : R;
  c_np_prob : R;
  c_np : NodalPlane;
  c_hc_prob : R;
  c_hc_depth : R
}.

(** The combinations in the order of the specification: magnitude bins
    outermost, then nodal planes, then hypocenter depths, each in the order
    of its table. *)
Definition combinations (self : PointSource) : list combination :=
  flat_map (fun '(mag, mag_occ_rate) =>
    flat_map (fun '(np_prob, np) =>
      map (fun '(hc_prob, hc_depth) =>
             mkCombination mag mag_occ_rate np_prob np hc_prob hc_depth)
          (hypocenter_distribution self))
      (nodal_plane_distribution self))
    (get_annual_occurrence_rates self).


(** What the specification asks of the rupture yielded for a combination:
    the magnitude and the rake of its nodal plane, the hypocenter at the
    caller's longitude and latitude with the sampled depth, the surface that
    [_get_rupture_surface] builds for them, and the occurrence rate
    [magRate * nodalPlaneProb * hypocenterProb * rateScalingFactor]. *)
Definition rupture_of_combination {TOM : Type}
  (point_at : Point -> R -> R -> R -> Point) (self : PointSource)
  (temporal_occurrence_model : TOM) (location : Point)
  (rate_scaling_factor : R)
  (c : combination) (r : ProbabilisticRupture TOM) : Prop :=
  rup_mag r = c_mag c
  /\ rup_rake r = rake (c_np c)
  /\ rup_tectonic_region_type r = tectonic_region_type self
  /\ rup_hypocenter r
     = mkPoint (longitude location) (latitude location) (c_hc_depth c)
  /\ _get_rupture_surface point_at self (c_mag c) (c_np c) (rup_hypocenter r)
     = inr (rup_surface r)
  /\ rup_source_typology r = type_of_self self
  /\ rup_occurrence_rate r
     = c_mag_occ_rate c * c_np_prob c * c_hc_prob c * rate_scaling_factor
  /\ rup_temporal_occurrence_model r = temporal_occurrence_model.

(** ** A source and a stepping primitive to evaluate on *)

(** One magnitude bin, one vertical nodal plane and two hypocenter depths
    in a layer from 0 to 10 km, with a unit area for every magnitude. *)
Definition example_plane : NodalPlane := mkNodalPlane 0 90 0.

Definition example_source : PointSource :=
  mkPointSource PointSourceClass String.EmptyString String.EmptyString
    String.EmptyString
    [(5, 1)] 1 (fun _ _ => 1) 1 0 10 (mkPoint 0 0 0)
    [(1, example_plane)] [(1 / 2, 4); (1 / 2, 6)].

(** A stepping primitive that keeps the longitude and the latitude and adds
    the vertical increment to the depth. *)
Definition example_point_at (origin : Point) (horizontal_distance
  vertical_increment azimuth : R) : Point :=
  mkPoint (longitude origin) (latitude origin)
    (depth origin + vertical_increment).

(** ** _get_max_rupture_projection_radius *)

(** [xs[-1]] raises [IndexError] on an empty list, an exception that no
    other embedded function raises: a computation that indexes a list ends
    with [IndexError], with one of the exceptions of [exn], or with a
    value. *)
Inductive index_exn : Type :=
| IndexError
| Raised (e : exn).

(** The loop over the nodal planes, from the current [max_radius] on. *)
Fixpoint max_radius_loop (self : PointSource) (max_mag : R)
  (data : list (R * NodalPlane)) (max_radius : R) : result R :=
  match data with
  | [] => ret max_radius
  | (np_prob, np) :: rest =>
      '(rup_length, rup_width) <- _get_rupture_dimensions self max_mag np ;;
      let rup_width := rup_width * cos (math_radians (dip np)) in
      root <- math_sqrt (rup_length ^ 2 + rup_width ^ 2) ;;
      let radius := root / 2 in
      max_radius_loop self max_mag rest
        (if Rgt_dec radius max_radius then radius else max_radius)
  end.

Definition _get_max_rupture_projection_radius (self : PointSource)
  : index_exn + R :=
  match rev (get_annual_occurrence_rates self) with
  | [] => inl IndexError
  | (max_mag, _rate) :: _ =>
      match max_radius_loop self max_mag (nodal_plane_distribution self) 0 with
      | inl e => inl (Raised e)
      | inr max_radius => inr max_radius
      end
  end.

(** The half diagonal of the surface projection of the rupture of one nodal
    plane: the radius that the loop compares with [max_radius]. *)
Definition projection_radius (rup_length rup_width dip_deg : R) : R :=
  sqrt (rup_length ^ 2 + (rup_width * cos (math_radians dip_deg)) ^ 2) / 2.

(** The same rupture with its occurrence rate multiplied by [factor]. *)
Definition scale_rate {TOM : Type} (factor : R) (r : ProbabilisticRupture TOM)
  : ProbabilisticRupture TOM :=
  mkProbabilisticRupture (rup_mag r) (rup_rake r)
    (rup_tectonic_region_type r) (rup_hypocenter r) (rup_surface r)
    (rup_source_typology r) (rup_occurrence_rate r * factor)
    (rup_temporal_occurrence_model r).

(** ** Sums of rates and probabilities *)

Definition sum_list (xs : list R) : R := fold_right Rplus 0 xs.

End PointSrc.

(** * openquake/hazardlib/source/point.py in binary64 *)

(** Python's [float] is the IEEE 754 binary64 format.  The two methods that
    size and place a rupture are given here a second time, with every
    operation rounded as the interpreter rounds it, to tell what the exact
    reals of [PointSrc] keep from what they idealise. *)
Module PointSrcBinary64.

Import PrimFloat.
Local Open Scope float_scope.
Local Open Scope py_scope.

(** ** The [math] module and Python arithmetic on floats *)

(** [math.pi], the binary64 number nearest to pi. *)
Definition math_pi : float := 0x1.921fb54442d18p+1.

(** [math.radians] multiplies by the constant [math.pi / 180]. *)
Definition math_radians (x : float) : float := x * (math_pi / 180).

(** [math.sqrt] raises [ValueError] on a negative argument. *)
Definition math_sqrt (x : float) : result float :=
  if x <? 0 then raise ValueError else ret (sqrt x).

(** [x / y] raises [ZeroDivisionError] when [y] is zero. *)
Definition py_div (x y : float) : result float :=
  if y =? 0 then raise ZeroDivisionError else ret (x / y).

(** ** Data *)

Record Point : Type := mkPoint {
  longitude : float;
  latitude : float;
  depth : float
}.

Record NodalPlane : Type := mkNodalPlane {
  strike : float;
  dip : float;
  rake : float
}.

(** Modelled from the spec: as in [PointSrc], the record of what
    [_get_rupture_surface] gives to the constructor of [PlanarSurface]. *)
Record PlanarSurface : Type := mkPlanarSurface {
  mesh_spacing : float;
  surface_strike : float;
  surface_dip : float;
  top_left : Point;
  top_right : Point;
  bottom_right : Point;
  bottom_left : Point
}.

(** The attributes of a [PointSource] that [_get_rupture_dimensions] and
    [_get_rupture_surface] read. *)
Record PointSource : Type := mkPointSource {
  rupture_mesh_spacing : float;
  get_median_area : float -> float -> float;
  rupture_aspect_ratio : float;
  upper_seismogenic_depth : float;
  lower_seismogenic_depth : float
}.

Section Libm.

(** [math.sin], [math.cos] and [math.tan] are the functions of the C
    library, and [x % y] on floats goes through its [fmod]; none of them is
    an operation of IEEE 754, so they are taken as they come. *)
Variable math_sin : float -> float.
Variable math_cos : float -> float.
Variable math_tan : float -> float.
Variable py_mod : float -> float -> float.

(** [Point.point_at], the geodetic stepping primitive. *)
Variable point_at : Point -> float -> float -> float -> Point.

(** ** _get_rupture_dimensions *)

Definition _get_rupture_dimensions (self : PointSource) (mag : float)
  (nodal_plane : NodalPlane) : result (float * float) :=
  let area := get_median_area self mag (rake nodal_plane) in
  rup_length <- math_sqrt (area * rupture_aspect_ratio self) ;;
  rup_width <- py_div area rup_length ;;
  let seismogenic_layer_width :=
    lower_seismogenic_depth self - upper_seismogenic_depth self in
  max_width <- py_div seismogenic_layer_width
                 (math_sin (math_radians (dip nodal_plane))) ;;
  if max_width <? rup_width then
    let rup_width := max_width in
    rup_length <- py_div area rup_width ;;
    ret (rup_length, rup_width)
  else ret (rup_length, rup_width).

(** ** _get_rupture_surface *)

Definition _get_rupture_surface (self : PointSource) (mag : float)
  (nodal_plane : NodalPlane) (hypocenter : Point) : result PlanarSurface :=
  py_assert ((upper_seismogenic_depth self <=? depth hypocenter)
             && (depth hypocenter <=? lower_seismogenic_depth self)) ;;;
  let rdip := math_radians (dip nodal_plane) in
  let azimuth_right := strike nodal_plane in
  let azimuth_down := py_mod (azimuth_right + 90) 360 in
  let azimuth_left := py_mod (azimuth_down + 90) 360 in
  let azimuth_up := py_mod (azimuth_left + 90) 360 in
  '(rup_length, rup_width) <- _get_rupture_dimensions self mag nodal_plane ;;
  let rup_proj_height := rup_width * math_sin rdip in
  let rup_proj_width := rup_width * math_cos rdip in
  let hheight := rup_proj_height / 2 in
  let vshift := upper_seismogenic_depth self - depth hypocenter + hheight in
  let vshift :=
    if vshift <? 0 then
      let vshift :=
        lower_seismogenic_depth self - depth hypocenter - hheight in
      if 0 <? vshift then 0 else vshift
    else vshift in
  let rupture_center := hypocenter in
  rupture_center <-
    (if negb (vshift =? 0) then
       quotient <- py_div vshift (math_tan rdip) ;;
       let hshift := abs quotient in
       ret (point_at rupture_center hshift vshift
              (if vshift <? 0 then azimuth_up else azimuth_down))
     else ret rupture_center) ;;
  let right_center := point_at rupture_center (rup_length / 2) 0 azimuth_right in
  let right_bottom :=
    point_at right_center (rup_proj_width / 2) (rup_proj_height / 2)
      azimuth_down in
  let right_top :=
    point_at right_bottom rup_proj_width (- rup_proj_height) azimuth_up in
  let left_top := point_at right_top rup_length 0 azimuth_left in
  let left_bottom := point_at right_bottom rup_length 0 azimuth_left in
  ret (mkPlanarSurface (rupture_mesh_spacing self) (strike nodal_plane)
         (dip nodal_plane) left_top right_top right_bottom left_bottom).

End Libm.

(** ** A vertical rupture at the top of the layer *)

(** What the C library returns at [math.radians(90)], the one angle the
    example asks for: a sine of 1, a cosine of 6.123233995736766e-17 and a
    tangent of 1.633123935319537e+16, which are the correctly rounded
    values. *)
Definition right_angle : float := 0x1.921fb54442d18p+0.

Definition sin_at_right_angle (x : float) : float :=
  if x =? right_angle then 1 else nan.

Definition cos_at_right_angle (x : float) : float :=
  if x =? right_angle then 0x1.1a62633145c07p-54 else nan.

Definition tan_at_right_angle (x : float) : float :=
  if x =? right_angle then 0x1.d02967c31cdb5p+53 else nan.

(** [x % y] where [0 <= x < y], which is [x]. *)
Definition mod_below (x y : float) : float :=
  if (0 <=? x) && (x <? y) then x else nan.

(** A stepping primitive that keeps the longitude and the latitude and adds
    the vertical increment to the depth, in binary64. *)
Definition example_point_at (origin : Point) (horizontal_distance
  vertical_increment azimuth : float) : Point :=
  mkPoint (longitude origin) (latitude origin)
    (depth origin + vertical_increment).

(** A layer from 5 to 15 km, a unit aspect ratio and an area of 3 square km
    for every magnitude; a vertical nodal plane; a hypocenter at the top of
    the layer. *)
Definition example_source : PointSource := mkPointSource 1 (fun _ _ => 3) 1 5 15.

Definition example_plane : NodalPlane := mkNodalPlane 0 90 0.

Definition example_hypocenter : Point := mkPoint 0 0 5.

End PointSrcBinary64.

(** * Facts about nhe/geo/_utils.py *)

Lemma bind_inr {A B : Type} (m : result A) (k : A -> result B) (b : B) :
  bind m k = inr b -> exists a, m = inr a /\ k a = inr b.
Proof.
  destruct m as [e | a]; simpl; intros H; [discriminate | eauto].
Qed.

Module GeoUtilsFacts.

Import GeoUtils.
Local Open Scope Q_scope.

(** ** Boolean comparisons *)

Lemma Qltb_lt (x y : Q) : Qltb x y = true <-> x < y.
Proof.
  unfold Qltb. rewrite negb_true_iff.
  split; intros H.
  - apply Qnot_le_lt. intros Hle. apply Qle_bool_iff in Hle. congruence.
  - destruct (Qle_bool y x) eqn:E; [|reflexivity].
    apply Qle_bool_iff in E. apply Qle_not_lt in E. contradiction.
Qed.

Lemma Qltb_ge (x y : Q) : Qltb x y = false <-> y <= x.
Proof.
  unfold Qltb. rewrite negb_false_iff. apply Qle_bool_iff.
Qed.

Lemma Qleb_le (x y : Q) : Qleb x y = true <-> x <= y.
Proof. apply Qle_bool_iff. Qed.

Lemma valid_lon_iff (lon : Q) : valid_lon lon = true <-> -180 < lon <= 180.
Proof.
  unfold valid_lon. rewrite andb_true_iff, Qltb_lt, Qleb_le. tauto.
Qed.

(** ** get_longitudinal_extent *)

(** The three branches of the function. *)
Lemma extent_cases (lon1 lon2 : Q) :
  (180 < lon2 - lon1 /\
   get_longitudinal_extent lon1 lon2 = -360 + (lon2 - lon1))
  \/ (lon2 - lon1 < -180 /\
      get_longitudinal_extent lon1 lon2 = 360 + (lon2 - lon1))
  \/ (-180 <= lon2 - lon1 <= 180 /\
      get_longitudinal_extent lon1 lon2 = lon2 - lon1).
Proof.
  unfold get_longitudinal_extent.
  destruct (Qltb 180 (lon2 - lon1)) eqn:E1.
  - left. apply Qltb_lt in E1. auto.
  - apply Qltb_ge in E1.
    destruct (Qltb (lon2 - lon1) (-180)) eqn:E2.
    + right; left. apply Qltb_lt in E2. auto.
    + right; right. apply Qltb_ge in E2. auto.
Qed.

Ltac extent_split a b :=
  let H := fresh "Hc" in
  let E := fresh "He" in
  destruct (extent_cases a b) as [[H E] | [[H E] | [H E]]];
  rewrite E in *; clear E.

(** The extent of valid longitudes never leaves [[-180, 180]]. *)
Lemma extent_bounds (lon1 lon2 : Q) :
  -180 < lon1 <= 180 -> -180 < lon2 <= 180 ->
  -180 <= get_longitudinal_extent lon1 lon2 <= 180.
Proof.
  intros H1 H2. extent_split lon1 lon2; lra.
Qed.

Lemma extent_antisym (lon1 lon2 : Q) :
  get_longitudinal_extent lon1 lon2 == - get_longitudinal_extent lon2 lon1.
Proof.
  extent_split lon1 lon2; extent_split lon2 lon1; lra.
Qed.

(** C6, as stated, fails at [lon1 = 180], [lon2 = 0]: both are valid
    longitudes, the difference is exactly -180, none of the two corrections
    applies, and the value -180 is not in the interval (-180, 180]. *)
Lemma longitudinal_extent_reaches_minus_180 :
  (-180 < 180 <= 180) /\ (-180 < 0 <= 180) /\
  get_longitudinal_extent 180 0 = -180 /\
  ~ (-180 < get_longitudinal_extent 180 0 <= 180).
Proof.
  repeat split; try (vm_compute; congruence).
  vm_compute. intros [H _]. discriminate H.
Qed.

(** C6, amended: for valid longitudes the extent lies in the closed interval
    [[-180, 180]] (the docstring's "absolute value doesn't exceed 180"), the
    lower end being reached only when [lon2 - lon1] is exactly -180; it is
    [lon2 - lon1] with 360 added or subtracted at most once; and swapping the
    arguments negates it, at the boundary too. *)
Theorem longitudinal_extent_spec (lon1 lon2 : Q) :
  -180 < lon1 <= 180 -> -180 < lon2 <= 180 ->
  -180 <= get_longitudinal_extent lon1 lon2 <= 180
  /\ (~ lon2 - lon1 == -180 -> -180 < get_longitudinal_extent lon1 lon2)
  /\ (lon2 - lon1 == -180 -> get_longitudinal_extent lon1 lon2 == -180)
  /\ (get_longitudinal_extent lon1 lon2 == lon2 - lon1
      \/ get_longitudinal_extent lon1 lon2 == lon2 - lon1 - 360
      \/ get_longitudinal_extent lon1 lon2 == lon2 - lon1 + 360)
  /\ get_longitudinal_extent lon1 lon2 == - get_longitudinal_extent lon2 lon1.
Proof.
  intros H1 H2. split; [apply extent_bounds; assumption|].
  split; [|split; [|split; [|apply extent_antisym]]].
  - intros Hne. extent_split lon1 lon2; lra.
  - intros Heq. extent_split lon1 lon2; lra.
  - extent_split lon1 lon2.
    + right; left. lra.
    + right; right. lra.
    + left. lra.
Qed.

Lemma longitudinal_extent_spec_witness :
  -180 <= get_longitudinal_extent (-1783 # 10) (1777 # 10) <= 180
  /\ get_longitudinal_extent (-1783 # 10) (1777 # 10) == -4
  /\ get_longitudinal_extent (-1783 # 10) (1777 # 10)
     == - get_longitudinal_extent (1777 # 10) (-1783 # 10).
Proof.
  assert (H1 : -180 < -1783 # 10 <= 180) by (split; [reflexivity | discriminate]).
  assert (H2 : -180 < 1777 # 10 <= 180) by (split; [reflexivity | discriminate]).
  destruct (longitudinal_extent_spec (-1783 # 10) (1777 # 10) H1 H2)
    as (Hb & _ & _ & _ & Ha).
  split; [exact Hb | split; [reflexivity | exact Ha]].
Defined.

(** ** Minimum and maximum of a sequence *)

Lemma Qmin_cases (x y : Q) :
  (Qmin x y = x /\ x <= y) \/ (Qmin x y = y /\ y <= x).
Proof.
  unfold Qmin, GenericMinMax.gmin.
  destruct (x ?= y) eqn:E.
  - left. split; [reflexivity|]. apply Qeq_alt in E. lra.
  - left. split; [reflexivity|]. apply Qlt_alt in E. lra.
  - right. split; [reflexivity|]. apply Qgt_alt in E. lra.
Qed.

Lemma Qmax_cases (x y : Q) :
  (Qmax x y = x /\ y <= x) \/ (Qmax x y = y /\ x <= y).
Proof.
  unfold Qmax, GenericMinMax.gmax.
  destruct (x ?= y) eqn:E.
  - left. split; [reflexivity|]. apply Qeq_alt in E. lra.
  - right. split; [reflexivity|]. apply Qlt_alt in E. lra.
  - left. split; [reflexivity|]. apply Qgt_alt in E. lra.
Qed.

Lemma fold_Qmin_spec (rest : list Q) :
  forall x,
    In (fold_left Qmin rest x) (x :: rest)
    /\ forall y, In y (x :: rest) -> fold_left Qmin rest x <= y.
Proof.
  induction rest as [|a rest IH]; intros x; simpl.
  - split; [left; reflexivity|]. intros y [<- | []]. lra.
  - destruct (IH (Qmin x a)) as [Hin Hle].
    split.
    + destruct Hin as [Hin | Hin]; [|right; right; exact Hin].
      rewrite <- Hin.
      destruct (Qmin_cases x a) as [[-> _] | [-> _]]; auto.
    + intros y Hy.
      assert (Hm : fold_left Qmin rest (Qmin x a) <= Qmin x a)
        by (apply Hle; left; reflexivity).
      set (m := fold_left Qmin rest (Qmin x a)) in *.
      destruct Hy as [<- | [<- | Hy]].
      * destruct (Qmin_cases x a) as [[E ?] | [E ?]]; rewrite E in Hm; lra.
      * destruct (Qmin_cases x a) as [[E ?] | [E ?]]; rewrite E in Hm; lra.
      * apply Hle. right. exact Hy.
Qed.

Lemma fold_Qmax_spec (rest : list Q) :
  forall x,
    In (fold_left Qmax rest x) (x :: rest)
    /\ forall y, In y (x :: rest) -> y <= fold_left Qmax rest x.
Proof.
  induction rest as [|a rest IH]; intros x; simpl.
  - split; [left; reflexivity|]. intros y [<- | []]. lra.
  - destruct (IH (Qmax x a)) as [Hin Hle].
    split.
    + destruct Hin as [Hin | Hin]; [|right; right; exact Hin].
      rewrite <- Hin.
      destruct (Qmax_cases x a) as [[-> _] | [-> _]]; auto.
    + intros y Hy.
      assert (Hm : Qmax x a <= fold_left Qmax rest (Qmax x a))
        by (apply Hle; left; reflexivity).
      set (m := fold_left Qmax rest (Qmax x a)) in *.
      destruct Hy as [<- | [<- | Hy]].
      * destruct (Qmax_cases x a) as [[E ?] | [E ?]]; rewrite E in Hm; lra.
      * destruct (Qmax_cases x a) as [[E ?] | [E ?]]; rewrite E in Hm; lra.
      * apply Hle. right. exact Hy.
Qed.

Lemma py_min_inr (xs : list Q) (m : Q) :
  py_min xs = inr m -> In m xs /\ forall y, In y xs -> m <= y.
Proof.
  destruct xs as [|x rest]; simpl; intros H; [discriminate|].
  injection H as <-. apply fold_Qmin_spec.
Qed.

Lemma py_max_inr (xs : list Q) (m : Q) :
  py_max xs = inr m -> In m xs /\ forall y, In y xs -> y <= m.
Proof.
  destruct xs as [|x rest]; simpl; intros H; [discriminate|].
  injection H as <-. apply fold_Qmax_spec.
Qed.

Lemma py_min_nonempty (xs : list Q) (x : Q) :
  In x xs -> exists m, py_min xs = inr m.
Proof. destruct xs; simpl; [intros [] | eauto]. Qed.

Lemma py_max_nonempty (xs : list Q) (x : Q) :
  In x xs -> exists m, py_max xs = inr m.
Proof. destruct xs; simpl; [intros [] | eauto]. Qed.

(** ** get_spherical_bounding_box *)

(** What a normal return tells: the naive borders, the assertion on them, and
    which of the two paths was taken. *)
Lemma bounding_box_inr (lons lats : list Q) (west east north south : Q) :
  get_spherical_bounding_box lons lats = inr (west, east, north, south) ->
  exists west0 east0,
    py_max lats = inr north /\ py_min lats = inr south
    /\ py_min lons = inr west0 /\ py_max lons = inr east0
    /\ -180 < west0 <= 180 /\ -180 < east0 <= 180
    /\ ((0 <= get_longitudinal_extent west0 east0
         /\ west = west0 /\ east = east0)
        \/ (get_longitudinal_extent west0 east0 < 0
            /\ py_min (filter (fun lon => Qltb 0 lon) lons) = inr west
            /\ py_max (filter (fun lon => Qltb lon 0) lons) = inr east
            /\ forallb (within_arc west east) lons = true)).
Proof.
  unfold get_spherical_bounding_box. intros H.
  apply bind_inr in H as (n & Hn & H).
  apply bind_inr in H as (s & Hs & H).
  apply bind_inr in H as (w0 & Hw0 & H).
  apply bind_inr in H as (e0 & He0 & H).
  apply bind_inr in H as ([] & Ha & H).
  unfold py_assert in Ha.
  destruct (valid_lon w0 && valid_lon e0) eqn:Hv; [|discriminate].
  apply andb_true_iff in Hv as [Hvw Hve].
  apply valid_lon_iff in Hvw. apply valid_lon_iff in Hve.
  exists w0, e0.
  destruct (Qltb (get_longitudinal_extent w0 e0) 0) eqn:Hx.
  - apply Qltb_lt in Hx.
    apply bind_inr in H as (w & Hw & H).
    apply bind_inr in H as (e & He & H).
    destruct (forallb (within_arc w e) lons) eqn:Hall; simpl in H;
      [|discriminate].
    injection H as <- <- <- <-.
    repeat (split; [assumption|]). right. auto.
  - apply Qltb_ge in Hx. injection H as <- <- <- <-.
    repeat (split; [assumption|]). left. auto.
Qed.

Lemma within_arc_iff (west east lon : Q) :
  within_arc west east lon = true <->
  0 <= get_longitudinal_extent west lon
  /\ 0 <= get_longitudinal_extent lon east.
Proof.
  unfold within_arc. rewrite andb_true_iff, !Qleb_le. tauto.
Qed.

(** Every longitude of a collection whose naive borders pass the assertion
    is a valid longitude. *)
Lemma lons_valid_of_borders (lons : list Q) (west0 east0 : Q) :
  py_min lons = inr west0 -> py_max lons = inr east0 ->
  -180 < west0 <= 180 -> -180 < east0 <= 180 ->
  forall lon, In lon lons -> -180 < lon <= 180.
Proof.
  intros Hmin Hmax Hw He lon Hin.
  apply py_min_inr in Hmin as [_ Hmin].
  apply py_max_inr in Hmax as [_ Hmax].
  specialize (Hmin lon Hin). specialize (Hmax lon Hin). lra.
Qed.

(** A normal return exhibits a half circle that holds the collection. *)
Lemma bounding_box_inr_fits (lons lats : list Q) (box : Q * Q * Q * Q) :
  get_spherical_bounding_box lons lats = inr box -> fits_half_circle lons.
Proof.
  destruct box as [[[west east] north] south]. intros H.
  apply bounding_box_inr in H
    as (w0 & e0 & _ & _ & Hmin & Hmax & Hw0 & He0 & Hpath).
  pose proof (lons_valid_of_borders _ _ _ Hmin Hmax Hw0 He0) as Hvalid.
  destruct Hpath as [(Hx & -> & ->) | (Hx & Hw & He & Hall)].
  - exists w0. intros lon Hin. exists 0%Z.
    apply py_min_inr in Hmin as [_ Hmin].
    apply py_max_inr in Hmax as [_ Hmax].
    specialize (Hmin lon Hin). specialize (Hmax lon Hin).
    change (inject_Z 0) with 0.
    extent_split w0 e0; lra.
  - exists west. intros lon Hin.
    rewrite forallb_forall in Hall. specialize (Hall lon Hin).
    apply within_arc_iff in Hall as [Hwl _].
    apply py_min_inr in Hw as [Hwin _].
    apply filter_In in Hwin as [Hwin _].
    pose proof (Hvalid _ Hwin) as Hvw. pose proof (Hvalid _ Hin) as Hvl.
    extent_split west lon.
    + lra.
    + exists 1%Z. change (inject_Z 1) with 1. lra.
    + exists 0%Z. change (inject_Z 0) with 0. lra.
Qed.

(** On a non-empty collection of valid longitudes, with latitudes given, the
    only exception the function raises is [RuntimeError]. *)
Lemma bounding_box_raises_only_RuntimeError (lons lats : list Q) :
  lons <> [] -> lats <> [] ->
  (forall lon, In lon lons -> -180 < lon <= 180) ->
  (exists box, get_spherical_bounding_box lons lats = inr box)
  \/ get_spherical_bounding_box lons lats = inl RuntimeError.
Proof.
  intros Hlons Hlats Hvalid.
  unfold get_spherical_bounding_box.
  destruct lats as [|lat lats']; [contradiction|].
  destruct lons as [|lon0 lons']; [contradiction|].
  set (lons := lon0 :: lons') in *.
  change (py_max (lat :: lats')) with (@inr exn Q (fold_left Qmax lats' lat)).
  change (py_min (lat :: lats')) with (@inr exn Q (fold_left Qmin lats' lat)).
  cbn [bind].
  destruct (py_min lons) as [e | w0] eqn:Hmin; [discriminate|].
  destruct (py_max lons) as [e | e0] eqn:Hmax; [discriminate|].
  cbn [bind].
  pose proof (py_min_inr _ _ Hmin) as [Hw0in Hw0le].
  pose proof (py_max_inr _ _ Hmax) as [He0in He0le].
  pose proof (Hvalid _ Hw0in) as Hvw. pose proof (Hvalid _ He0in) as Hve.
  assert (Hv : valid_lon w0 && valid_lon e0 = true).
  { apply andb_true_iff. split; apply valid_lon_iff; assumption. }
  rewrite Hv. cbn [py_assert bind ret].
  destruct (Qltb (get_longitudinal_extent w0 e0) 0) eqn:Hx.
  - apply Qltb_lt in Hx.
    assert (Hd : 180 < e0 - w0).
    { specialize (Hw0le _ He0in). extent_split w0 e0; lra. }
    assert (Hpos : In e0 (filter (fun lon => Qltb 0 lon) lons)).
    { apply filter_In. split; [assumption|]. apply Qltb_lt. lra. }
    assert (Hneg : In w0 (filter (fun lon => Qltb lon 0) lons)).
    { apply filter_In. split; [assumption|]. apply Qltb_lt. lra. }
    destruct (py_min_nonempty _ _ Hpos) as [w ->].
    destruct (py_max_nonempty _ _ Hneg) as [e ->].
    cbn [bind].
    destruct (forallb (within_arc w e) lons); cbn [negb].
    + left. eexists. reflexivity.
    + right. reflexivity.
  - left. eexists. reflexivity.
Qed.

(** A collection that spans more than 180 degrees is refused with
    [RuntimeError]. *)
Lemma bounding_box_wide_raises (lons lats : list Q) :
  lons <> [] -> lats <> [] ->
  (forall lon, In lon lons -> -180 < lon <= 180) ->
  spans_more_than_180 lons ->
  get_spherical_bounding_box lons lats = inl RuntimeError.
Proof.
  intros Hlons Hlats Hvalid Hwide.
  destruct (bounding_box_raises_only_RuntimeError lons lats Hlons Hlats Hvalid)
    as [[box Hbox] | Herr]; [|exact Herr].
  exfalso. apply Hwide. eapply bounding_box_inr_fits. exact Hbox.
Qed.

(** ** Where get_spherical_bounding_box raises *)

Lemma py_min_inl (xs : list Q) (e : exn) : py_min xs = inl e -> e = ValueError.
Proof. destruct xs; simpl; intros H; [injection H as <-; reflexivity | discriminate]. Qed.

Lemma py_max_inl (xs : list Q) (e : exn) : py_max xs = inl e -> e = ValueError.
Proof. destruct xs; simpl; intros H; [injection H as <-; reflexivity | discriminate]. Qed.

Lemma forallb_false_exists {A : Type} (f : A -> bool) (xs : list A) :
  forallb f xs = false -> exists x, In x xs /\ f x = false.
Proof.
  induction xs as [|x xs IH]; simpl; [discriminate|].
  destruct (f x) eqn:E; simpl.
  - intros H. destruct (IH H) as (y & Hy & Hf). exists y. auto.
  - intros _. exists x. auto.
Qed.

(** A [RuntimeError] comes from the date-line path, with a longitude at a
    negative extent from the recomputed west or to the recomputed east. *)
Lemma bounding_box_RuntimeError_inv (lons lats : list Q) :
  get_spherical_bounding_box lons lats = inl RuntimeError ->
  exists west0 east0 west east lon,
    py_min lons = inr west0 /\ py_max lons = inr east0
    /\ get_longitudinal_extent west0 east0 < 0
    /\ py_min (filter (fun lon => Qltb 0 lon) lons) = inr west
    /\ py_max (filter (fun lon => Qltb lon 0) lons) = inr east
    /\ In lon lons
    /\ (get_longitudinal_extent west lon < 0
        \/ get_longitudinal_extent lon east < 0).
Proof.
  unfold get_spherical_bounding_box.
  destruct (py_max lats) as [e | north] eqn:Hn; cbn [bind];
    [intros H; injection H as ->; apply py_max_inl in Hn; discriminate|].
  destruct (py_min lats) as [e | south] eqn:Hs; cbn [bind];
    [intros H; injection H as ->; apply py_min_inl in Hs; discriminate|].
  destruct (py_min lons) as [e | w0] eqn:Hw0; cbn [bind];
    [intros H; injection H as ->; apply py_min_inl in Hw0; discriminate|].
  destruct (py_max lons) as [e | e0] eqn:He0; cbn [bind];
    [intros H; injection H as ->; apply py_max_inl in He0; discriminate|].
  destruct (valid_lon w0 && valid_lon e0); cbn [py_assert bind ret raise];
    [|discriminate].
  destruct (Qltb (get_longitudinal_extent w0 e0) 0) eqn:Hx; [|discriminate].
  apply Qltb_lt in Hx.
  destruct (py_min (filter _ lons)) as [e | w] eqn:Hw; cbn [bind];
    [intros H; injection H as ->; apply py_min_inl in Hw; discriminate|].
  destruct (py_max (filter _ lons)) as [e | ea] eqn:He; cbn [bind];
    [intros H; injection H as ->; apply py_max_inl in He; discriminate|].
  destruct (forallb (within_arc w ea) lons) eqn:Hall; cbn [negb];
    [discriminate|].
  intros _.
  apply forallb_false_exists in Hall as (lon & Hin & Hout).
  exists w0, e0, w, ea, lon.
  repeat (split; [first [assumption | reflexivity]|]).
  unfold within_arc in Hout. apply andb_false_iff in Hout.
  destruct Hout as [Hout | Hout]; [left | right];
    apply Qnot_le_lt; intros Hle; apply Qleb_le in Hle;
    unfold Qleb in *; congruence.
Qed.

(** Two whole numbers of turns that differ by more than -2 and less than 1
    differ by -1 or by 0. *)
Lemma inject_Z_diff_cases (x y : Z) :
  -2 < inject_Z x - inject_Z y < 1 ->
  inject_Z x == inject_Z y - 1 \/ inject_Z x == inject_Z y.
Proof.
  intros [Hlo Hhi].
  assert (Hlo' : inject_Z (y - 2) < inject_Z x).
  { unfold Z.sub. rewrite inject_Z_plus. change (inject_Z (- (2))) with (-2). lra. }
  assert (Hhi' : inject_Z x < inject_Z (y + 1)).
  { rewrite inject_Z_plus. change (inject_Z 1) with 1. lra. }
  rewrite <- Zlt_Qlt in Hlo', Hhi'.
  assert (Hz : (x = y - 1 \/ x = y)%Z) by lia.
  destruct Hz as [-> | ->]; [left | right; reflexivity].
  unfold Z.sub. rewrite inject_Z_plus. change (inject_Z (- (1))) with (-1). lra.
Qed.

(** A collection of valid longitudes that fits in an arc shorter than 180
    degrees is never refused: the function is wrong about the half circle
    only when the collection is exactly 180 degrees wide. *)
Lemma bounding_box_narrow_returns (lons lats : list Q) :
  lons <> [] -> lats <> [] ->
  (forall lon, In lon lons -> -180 < lon <= 180) ->
  fits_shorter_arc lons ->
  exists box, get_spherical_bounding_box lons lats = inr box.
Proof.
  intros Hlons Hlats Hvalid (w & width & Hwidth & Hfit).
  destruct (bounding_box_raises_only_RuntimeError lons lats Hlons Hlats Hvalid)
    as [Hbox | Herr]; [exact Hbox|].
  exfalso.
  apply bounding_box_RuntimeError_inv in Herr
    as (w0 & e0 & west & east & lon & Hmin & Hmax & Hx & Hw & He & Hin & Hout).
  apply py_min_inr in Hmin as [Hw0in Hw0le].
  apply py_max_inr in Hmax as [He0in He0le].
  apply py_min_inr in Hw as [Hwin Hwle].
  apply py_max_inr in He as [Hein Hele].
  apply filter_In in Hwin as [Hwin Hwpos]. apply Qltb_lt in Hwpos.
  apply filter_In in Hein as [Hein Heneg]. apply Qltb_lt in Heneg.
  pose proof (Hvalid _ Hw0in) as Vw0. pose proof (Hvalid _ He0in) as Ve0.
  pose proof (Hvalid _ Hwin) as Vw. pose proof (Hvalid _ Hein) as Ve.
  pose proof (Hvalid _ Hin) as Vl.
  pose proof (Hw0le _ He0in) as Hw0e0.
  pose proof (Hw0le _ Hin) as Hw0l. pose proof (He0le _ Hin) as Hle0.
  pose proof (Hw0le _ Hwin) as Hw0w. pose proof (He0le _ Hwin) as Hwe0.
  pose proof (Hw0le _ Hein) as Hw0e. pose proof (He0le _ Hein) as Hee0.
  assert (Hd : 180 < e0 - w0) by (extent_split w0 e0; lra).
  destruct (Hfit _ Hw0in) as [kw0 Kw0]. destruct (Hfit _ He0in) as [ke0 Ke0].
  destruct (Hfit _ Hwin) as [kw Kw]. destruct (Hfit _ Hein) as [ke Ke].
  destruct (Hfit _ Hin) as [kl Kl].
  assert (Hpos : 0 < lon -> west <= lon).
  { intros H. apply Hwle, filter_In. split; [exact Hin | apply Qltb_lt; exact H]. }
  assert (Hneg : lon < 0 -> lon <= east).
  { intros H. apply Hele, filter_In. split; [exact Hin | apply Qltb_lt; exact H]. }
  destruct (inject_Z_diff_cases ke0 kw0) as [E1 | E1]; [lra | | lra].
  destruct (inject_Z_diff_cases kw kw0) as [E2 | E2]; [lra | | lra].
  destruct (inject_Z_diff_cases ke kw0) as [E3 | E3]; [lra | lra |].
  destruct (inject_Z_diff_cases kl kw0) as [E4 | E4]; [lra | |].
  - assert (Hl : 0 < lon) by lra. specialize (Hpos Hl).
    destruct Hout as [Hout | Hout].
    + extent_split west lon; lra.
    + extent_split lon east; lra.
  - assert (Hl : lon < 0) by lra. specialize (Hneg Hl).
    destruct Hout as [Hout | Hout].
    + extent_split west lon; lra.
    + extent_split lon east; lra.
Qed.

(** C5: whatever the function returns without raising is a bounding box in
    the sense of the data model.  The assertion on the naive borders already
    makes every input longitude a valid one; both borders are valid
    longitudes, the extent from west to east is between 0 and 180, north is
    the greatest and south the least of the latitudes; and the two examples
    of the docstring evaluate as documented. *)
Theorem bounding_box_invariant :
  (forall lons lats west east north south,
      get_spherical_bounding_box lons lats = inr (west, east, north, south) ->
      (forall lon, In lon lons -> -180 < lon <= 180)
      /\ -180 < west <= 180 /\ -180 < east <= 180
      /\ 0 <= get_longitudinal_extent west east <= 180
      /\ (In north lats /\ forall lat, In lat lats -> lat <= north)
      /\ (In south lats /\ forall lat, In lat lats -> south <= lat))
  /\ get_spherical_bounding_box [10; -10] [50; 60] = inr (-10, 10, 60, 50)
  /\ get_spherical_bounding_box [-20; 180; 179; 178] [-1; -2; 1; 2]
     = inr (178, -20, 2, -2).
Proof.
  split; [|split; reflexivity].
  intros lons lats west east north south H.
  apply bounding_box_inr in H
    as (w0 & e0 & Hn & Hs & Hmin & Hmax & Hw0 & He0 & Hpath).
  pose proof (lons_valid_of_borders _ _ _ Hmin Hmax Hw0 He0) as Hvalid.
  split; [exact Hvalid|].
  assert (Hwe : -180 < west <= 180 /\ -180 < east <= 180
                /\ 0 <= get_longitudinal_extent west east).
  { destruct Hpath as [(Hx & -> & ->) | (Hx & Hw & He & Hall)].
    - auto.
    - apply py_min_inr in Hw as [Hw _]. apply filter_In in Hw as [Hw _].
      apply py_max_inr in He as [He _]. apply filter_In in He as [He _].
      rewrite forallb_forall in Hall.
      pose proof (Hall _ Hw) as Harc.
      apply within_arc_iff in Harc as [_ Harc].
      split; [exact (Hvalid _ Hw) | split; [exact (Hvalid _ He) | exact Harc]]. }
  destruct Hwe as (Hw & He & Hx).
  repeat (split; [assumption|]).
  split; [split; [exact Hx | apply extent_bounds; assumption]|].
  split; [apply py_max_inr | apply py_min_inr]; assumption.
Qed.

Lemma bounding_box_invariant_witness :
  -180 < 178 <= 180 /\ -180 < -20 <= 180
  /\ 0 <= get_longitudinal_extent 178 (-20) <= 180.
Proof.
  destruct (proj1 bounding_box_invariant
              [-20; 180; 179; 178] [-1; -2; 1; 2] 178 (-20) 2 (-2)
              eq_refl)
    as (_ & Hw & He & Hx & _).
  exact (conj Hw (conj He Hx)).
Defined.

(** C4: the function refuses a collection that fits in a half circle.  The
    longitudes -90, 90 and 100 lie in the arc that goes east from 90 to 270
    = -90, exactly 180 degrees long, so the collection does not span more
    than 180 degrees; yet the function raises [RuntimeError], because on the
    date-line path [get_longitudinal_extent 90 (-90)] is -180 and counts as
    negative.  The path that does not cross the date line accepts a
    collection of the same width: -90 and 90 alone give the box (-90, 90).
    The documented failure on -45, -135, 135, 45 is as claimed. *)
Theorem bounding_box_refuses_exact_half_circle :
  fits_half_circle [-90; 90; 100]
  /\ ~ spans_more_than_180 [-90; 90; 100]
  /\ get_spherical_bounding_box [-90; 90; 100] [0; 0; 0] = inl RuntimeError
  /\ get_spherical_bounding_box [-90; 90] [0; 0] = inr (-90, 90, 0, 0)
  /\ get_spherical_bounding_box [-45; -135; 135; 45] [80; 80; 80; 80]
     = inl RuntimeError.
Proof.
  assert (Hfit : fits_half_circle [-90; 90; 100]).
  { exists 90. intros lon [<- | [<- | [<- | []]]].
    - exists 1%Z. split; vm_compute; congruence.
    - exists 0%Z. split; vm_compute; congruence.
    - exists 0%Z. split; vm_compute; congruence. }
  split; [exact Hfit|].
  split; [intros Hwide; exact (Hwide Hfit)|].
  repeat split.
Qed.

(** ** line_intersects_itself *)

Lemma inject_Z_lt_succ (a b : Z) :
  inject_Z a < inject_Z b + 1 -> (a <= b)%Z.
Proof.
  intros H.
  assert (H' : inject_Z a < inject_Z (b + 1)).
  { rewrite inject_Z_plus. exact H. }
  rewrite <- Zlt_Qlt in H'. lia.
Qed.

(** The four longitudes of the docstring's failing example, a quarter turn
    apart, fit in no half circle. *)
Lemma quarter_turns_span_more_than_180 :
  spans_more_than_180 [-45; -135; 135; 45].
Proof.
  intros [w Hw].
  destruct (Hw (-45)) as [k1 H1]; [simpl; auto|].
  destruct (Hw (-135)) as [k2 H2]; [simpl; auto|].
  destruct (Hw 135) as [k3 H3]; [simpl; auto|].
  destruct (Hw 45) as [k4 H4]; [simpl; auto 6|].
  assert (E12 : k1 = k2).
  { apply Z.le_antisymm; apply inject_Z_lt_succ; lra. }
  assert (E34 : k3 = k4).
  { apply Z.le_antisymm; apply inject_Z_lt_succ; lra. }
  assert (E14 : k1 = k4).
  { apply Z.le_antisymm; apply inject_Z_lt_succ; lra. }
  subst k2 k4 k3. lra.
Qed.

Section LineIntersectsItselfFacts.

Variable proj_apply : Proj -> list Q -> list Q -> list Q * list Q.
Variable is_simple : list (Q * Q) -> bool.

(** C10: the function is partial.  Whatever the projection and the
    simplicity test are, four or more points with valid longitudes that
    span more than 180 degrees make it raise the [RuntimeError] of
    [get_spherical_bounding_box]; with three points or fewer it returns
    [False] before it builds any bounding box. *)
Theorem line_intersects_itself_partial :
  (forall lons lats closed_shape,
      length lons = length lats -> (4 <= length lons)%nat ->
      (forall lon, In lon lons -> -180 < lon <= 180) ->
      spans_more_than_180 lons ->
      line_intersects_itself proj_apply is_simple lons lats closed_shape
      = inl RuntimeError)
  /\ (forall lons lats closed_shape,
        length lons = length lats -> (length lons <= 3)%nat ->
        line_intersects_itself proj_apply is_simple lons lats closed_shape
        = inr false).
Proof.
  split; intros lons lats closed_shape Hlen Hn.
  - intros Hvalid Hwide.
    unfold line_intersects_itself.
    rewrite Hlen, Nat.eqb_refl. cbn [py_assert bind ret].
    rewrite <- Hlen.
    destruct (Nat.leb (length lons) 3) eqn:E.
    + apply Nat.leb_le in E. lia.
    + rewrite (bounding_box_wide_raises lons lats); try assumption.
      * reflexivity.
      * destruct lons; [simpl in Hn; lia | discriminate].
      * destruct lats; [simpl in Hlen; lia | discriminate].
  - unfold line_intersects_itself.
    rewrite Hlen, Nat.eqb_refl. cbn [py_assert bind ret].
    rewrite <- Hlen.
    apply Nat.leb_le in Hn. rewrite Hn. reflexivity.
Qed.

End LineIntersectsItselfFacts.

Lemma line_intersects_itself_partial_witness :
  line_intersects_itself (fun _ xs ys => (xs, ys)) (fun _ => true)
    [-45; -135; 135; 45] [80; 80; 80; 80] false
  = inl RuntimeError.
Proof.
  apply (proj1 (line_intersects_itself_partial
                  (fun _ xs ys => (xs, ys)) (fun _ => true))).
  - reflexivity.
  - simpl. lia.
  - intros lon [<- | [<- | [<- | [<- | []]]]]; split;
      vm_compute; congruence.
  - exact quarter_turns_span_more_than_180.
Defined.

(** ** clean_points *)

Lemma Point_eq_refl (p : Point) : Point_eq p p = true.
Proof.
  unfold Point_eq. rewrite !Qeq_bool_refl. reflexivity.
Qed.

Lemma Point_eq_sym (p q : Point) : Point_eq p q = Point_eq q p.
Proof.
  unfold Point_eq.
  rewrite (Qeq_bool_comm (longitude p)), (Qeq_bool_comm (latitude p)),
    (Qeq_bool_comm (depth p)).
  reflexivity.
Qed.

(** The loop, started on a result that ends with [x]: the points that
    follow are appended unless they repeat the last retained one. *)
Lemma clean_points_loop (point_eq : Point -> Point -> bool) (p0 : Point)
  (points : list Point) :
  forall (acc : list Point) (x : Point),
    fold_left (clean_points_step point_eq p0) points (acc ++ [x])
    = acc ++ x :: drop_repeats_of point_eq x points.
Proof.
  induction points as [|q points IH]; intros acc x; simpl.
  - reflexivity.
  - unfold clean_points_step at 2, point_ne.
    rewrite last_last.
    destruct (point_eq q x); cbn [negb].
    + apply IH.
    + rewrite (IH (acc ++ [x]) q), <- app_assoc. reflexivity.
Qed.

(** Whatever the equality of points is, as long as a point equals itself,
    the loop computes the specification's function. *)
Lemma clean_points_refines (point_eq : Point -> Point -> bool) :
  (forall p, point_eq p p = true) ->
  forall points,
    clean_points point_eq points = cleanAdjacentDuplicates point_eq points.
Proof.
  intros Hrefl [|p rest]; [reflexivity|].
  change (fold_left (clean_points_step point_eq p) (p :: rest) ([] ++ [p])
          = p :: drop_repeats_of point_eq p rest).
  rewrite clean_points_loop.
  simpl. rewrite Hrefl. reflexivity.
Qed.

(** C9: with the equality of points exact on the three fields,
    [clean_points] is the specification's [cleanAdjacentDuplicates]: the
    first point is kept and a later point goes exactly when it equals the
    last retained one; the empty list comes back empty; and in
    [a, a, a, b, a, c, c], with [b] and [c] different from [a], only the
    adjacent repeats collapse. *)
Theorem clean_points_spec :
  (forall points,
      clean_points Point_eq points = cleanAdjacentDuplicates Point_eq points)
  /\ clean_points Point_eq [] = []
  /\ (forall a b c,
        Point_eq a b = false -> Point_eq a c = false ->
        clean_points Point_eq [a; a; a; b; a; c; c] = [a; b; a; c]).
Proof.
  pose proof (clean_points_refines Point_eq Point_eq_refl) as H.
  split; [exact H | split; [reflexivity|]].
  intros a b c Hab Hac. rewrite H. simpl.
  rewrite !Point_eq_refl, Hab, (Point_eq_sym b a), Hab,
    (Point_eq_sym c a), Hac.
  reflexivity.
Qed.

Lemma clean_points_spec_witness :
  let a := mkPoint 1 2 3 in
  let b := mkPoint 3 4 5 in
  let c := mkPoint 5 6 7 in
  clean_points Point_eq [a; a; a; b; a; c; c] = [a; b; a; c].
Proof.
  intros a b c.
  apply (proj2 (proj2 clean_points_spec) a b c); reflexivity.
Defined.

End GeoUtilsFacts.

(** * The rupture surface in binary64 *)

Module PointSrcBinary64Facts.

Import PrimFloat.
Import PointSrcBinary64.
Local Open Scope float_scope.

(** C1 as the specification words it does not hold of the code: with a
    layer from 5 to 15 km, an area of 3 square km, a unit aspect ratio, a
    vertical nodal plane and a hypocenter at 5 km, every precondition of the
    claim holds and [point_at] adds its vertical increment to the depth, yet
    the top corners of the surface returned are at 4.9999999999999991 km,
    above the upper seismogenic depth.  The width [3 / sqrt 3] is rounded,
    and so are the sums that lead from the hypocenter down to the bottom
    edge and back up to the top edge. *)
Lemma rupture_surface_corner_above_layer :
  (0 <=? upper_seismogenic_depth example_source) = true
  /\ (upper_seismogenic_depth example_source
      <? lower_seismogenic_depth example_source) = true
  /\ (0 <? get_median_area example_source 6 (rake example_plane)) = true
  /\ (0 <? rupture_aspect_ratio example_source) = true
  /\ (0 <? dip example_plane) = true /\ (dip example_plane <=? 90) = true
  /\ (upper_seismogenic_depth example_source <=? depth example_hypocenter)
     = true
  /\ (depth example_hypocenter <=? lower_seismogenic_depth example_source)
     = true
  /\ exists surface,
       _get_rupture_surface sin_at_right_angle cos_at_right_angle
         tan_at_right_angle mod_below example_point_at
         example_source 6 example_plane example_hypocenter
       = inr surface
       /\ depth (top_left surface) = 0x1.3ffffffffffffp+2
       /\ depth (top_right surface) = 0x1.3ffffffffffffp+2
       /\ (depth (top_left surface) <? upper_seismogenic_depth example_source)
          = true
       /\ (depth (top_right surface) <? upper_seismogenic_depth example_source)
          = true.
Proof.
  repeat (split; [vm_compute; reflexivity|]).
  eexists. repeat split; vm_compute; reflexivity.
Qed.

End PointSrcBinary64Facts.

(** * Facts about openquake/hazardlib/source/point.py *)

Module PointSrcFacts.

Import PointSrc.
Local Open Scope R_scope.

(** ** Angles *)

(** The sine of a dip in (0, 90] degrees is positive. *)
Lemma sin_dip_pos (d : R) : 0 < d <= 90 -> 0 < sin (math_radians d).
Proof.
  intros [Hlo Hhi]. unfold math_radians.
  pose proof PI_RGT_0 as Hpi.
  apply sin_gt_0.
  - apply Rdiv_lt_0_compat; [apply Rmult_lt_0_compat; assumption | lra].
  - apply Rle_lt_trans with (PI / 2); [|lra].
    apply Rmult_le_reg_r with 180; [lra|].
    unfold Rdiv. rewrite Rmult_assoc, Rinv_l by lra. nra.
Qed.

(** ** _get_rupture_dimensions *)

(** Under the preconditions the function returns, and this is what it
    returns. *)
Lemma rupture_dimensions_inr (self : PointSource) (mag : R) (np : NodalPlane) :
  let area := get_median_area self mag (rake np) in
  let layer := lower_seismogenic_depth self - upper_seismogenic_depth self in
  let max_width := layer / sin (math_radians (dip np)) in
  let length0 := sqrt (area * rupture_aspect_ratio self) in
  0 < area -> 0 < rupture_aspect_ratio self -> 0 < dip np <= 90 ->
  upper_seismogenic_depth self < lower_seismogenic_depth self ->
  exists rup_length rup_width,
    _get_rupture_dimensions self mag np = inr (rup_length, rup_width)
    /\ ((area / length0 <= max_width
         /\ rup_length = length0 /\ rup_width = area / length0)
        \/ (area / length0 > max_width
            /\ rup_length = area / max_width /\ rup_width = max_width))
    /\ 0 < length0 /\ 0 < max_width.
Proof.
  intros area layer max_width length0 Harea Hasp Hdip Hlayer.
  pose proof (sin_dip_pos _ Hdip) as Hsin.
  assert (Hprod : 0 < area * rupture_aspect_ratio self)
    by (apply Rmult_lt_0_compat; assumption).
  assert (Hlen : 0 < length0) by (apply sqrt_lt_R0; exact Hprod).
  assert (Hmax : 0 < max_width)
    by (apply Rdiv_lt_0_compat; [unfold layer; lra | exact Hsin]).
  unfold _get_rupture_dimensions, math_sqrt, py_div.
  fold area. fold layer.
  destruct (Rlt_dec (area * rupture_aspect_ratio self) 0) as [Hneg | _];
    [lra|].
  cbn [bind ret]. fold length0.
  destruct (Req_dec_T length0 0) as [Hz | _]; [lra|].
  cbn [bind ret].
  destruct (Req_dec_T (sin (math_radians (dip np))) 0) as [Hz | _]; [lra|].
  cbn [bind ret]. fold max_width.
  destruct (Rgt_dec (area / length0) max_width) as [Hclip | Hfit].
  - destruct (Req_dec_T max_width 0) as [Hz | _]; [lra|].
    cbn [bind ret].
    exists (area / max_width), max_width.
    split; [reflexivity|]. split; [right; auto | auto].
  - exists length0, (area / length0).
    split; [reflexivity|]. split; [left; split; [lra | auto] | auto].
Qed.

(** C3: under the preconditions [_get_rupture_dimensions] returns a length
    and a width whose product is the area that the magnitude-scaling
    relationship gives, in exact arithmetic, both when the width is kept
    ([sqrt (area * aspect)] by [area / length]) and when it is clipped to
    [(lower - upper) / sin dip] and the length recomputed. *)
Theorem rupture_dimensions_preserve_area
  (self : PointSource) (mag : R) (np : NodalPlane) :
  let area := get_median_area self mag (rake np) in
  let max_width :=
    (lower_seismogenic_depth self - upper_seismogenic_depth self)
    / sin (math_radians (dip np)) in
  let length0 := sqrt (area * rupture_aspect_ratio self) in
  0 < area -> 0 < rupture_aspect_ratio self -> 0 < dip np <= 90 ->
  upper_seismogenic_depth self < lower_seismogenic_depth self ->
  exists rup_length rup_width,
    _get_rupture_dimensions self mag np = inr (rup_length, rup_width)
    /\ rup_length * rup_width = area
    /\ (area / length0 <= max_width ->
        rup_length = length0 /\ rup_width = area / length0)
    /\ (area / length0 > max_width ->
        rup_width = max_width /\ rup_length = area / max_width).
Proof.
  intros area max_width length0 Harea Hasp Hdip Hlayer.
  destruct (rupture_dimensions_inr self mag np Harea Hasp Hdip Hlayer)
    as (l & w & Hdim & Hcase & Hlen & Hmax).
  fold area in Hcase, Hlen. fold max_width in Hcase, Hmax.
  fold length0 in Hcase, Hlen.
  exists l, w. split; [exact Hdim|].
  destruct Hcase as [(Hfit & -> & ->) | (Hclip & -> & ->)].
  - split; [field; lra|]. split; [auto | intros; lra].
  - split; [field; lra|]. split; [intros; lra | auto].
Qed.

(** ** _get_rupture_surface *)

Lemma Rleb_true (x y : R) : x <= y -> Rleb x y = true.
Proof. intros H. unfold Rleb. destruct (Rle_dec x y); [reflexivity | lra]. Qed.

Lemma Rleb_true_inv (x y : R) : Rleb x y = true -> x <= y.
Proof. unfold Rleb. destruct (Rle_dec x y); [auto | discriminate]. Qed.

Section SurfaceFacts.

Variable point_at : Point -> R -> R -> R -> Point.

(** Under the preconditions the function returns the surface built around
    the rupture center, and the projected height of the rupture fits in
    the seismogenic layer. *)
Lemma rupture_surface_inr
  (self : PointSource) (mag : R) (np : NodalPlane) (hypocenter : Point) :
  let rdip := math_radians (dip np) in
  let azimuth_down := py_mod (strike np + 90) 360 in
  let azimuth_left := py_mod (azimuth_down + 90) 360 in
  let azimuth_up := py_mod (azimuth_left + 90) 360 in
  0 < get_median_area self mag (rake np) ->
  0 < rupture_aspect_ratio self -> 0 < dip np <= 90 ->
  upper_seismogenic_depth self < lower_seismogenic_depth self ->
  upper_seismogenic_depth self <= depth hypocenter
    <= lower_seismogenic_depth self ->
  exists rup_length rup_width,
    _get_rupture_dimensions self mag np = inr (rup_length, rup_width)
    /\ 0 < rup_width * sin rdip
        <= lower_seismogenic_depth self - upper_seismogenic_depth self
    /\ _get_rupture_surface point_at self mag np hypocenter
       = inr (surface_around point_at self np
                (rupture_center_of point_at hypocenter
                   (vertical_shift self hypocenter
                      (rup_width * sin rdip / 2))
                   rdip azimuth_up azimuth_down)
                rup_length (rup_width * cos rdip) (rup_width * sin rdip)
                (strike np) azimuth_down azimuth_left azimuth_up).
Proof.
  intros rdip azimuth_down azimuth_left azimuth_up
    Harea Hasp Hdip Hlayer Hdepth.
  pose proof (sin_dip_pos _ Hdip) as Hsin. fold rdip in Hsin.
  destruct (rupture_dimensions_inr self mag np Harea Hasp Hdip Hlayer)
    as (l & w & Hdim & Hcase & Hlen & Hmax).
  fold rdip in Hcase, Hmax.
  exists l, w. split; [exact Hdim|]. split.
  - destruct Hcase as [(Hfit & _ & ->) | (_ & _ & ->)].
    + split.
      * apply Rmult_lt_0_compat; [|exact Hsin].
        apply Rdiv_lt_0_compat; assumption.
      * apply Rmult_le_compat_r with (r := sin rdip) in Hfit; [|lra].
        replace ((lower_seismogenic_depth self
                  - upper_seismogenic_depth self) / sin rdip * sin rdip)
          with (lower_seismogenic_depth self - upper_seismogenic_depth self)
          in Hfit by (field; lra).
        exact Hfit.
    + replace ((lower_seismogenic_depth self
                - upper_seismogenic_depth self) / sin rdip * sin rdip)
        with (lower_seismogenic_depth self - upper_seismogenic_depth self)
        by (field; lra).
      lra.
  - unfold _get_rupture_surface, Rgeb.
    rewrite !Rleb_true by lra. cbn [andb py_assert bind ret].
    rewrite Hdim. reflexivity.
Qed.

(** The depth of the rupture center is the hypocenter depth plus the
    vertical shift, whenever [point_at] adds its vertical increment to the
    depth. *)
Lemma rupture_center_depth
  (hypocenter : Point) (vshift rdip azimuth_up azimuth_down : R) :
  (forall origin h v az, depth (point_at origin h v az) = depth origin + v) ->
  depth (rupture_center_of point_at hypocenter vshift rdip
           azimuth_up azimuth_down)
  = depth hypocenter + vshift.
Proof.
  intros Hpt. unfold rupture_center_of.
  destruct (Req_dec_T vshift 0) as [-> | _]; [lra | apply Hpt].
Qed.

(** C1, amended: in exact arithmetic, when [point_at] gives a point whose
    depth is the depth of the origin plus the vertical increment, then for
    every magnitude, every nodal plane with a dip in (0, 90] and every
    hypocenter within the seismogenic layer, the function returns a surface,
    and each of its four corners has a depth between the upper and the
    lower seismogenic depth.  The binary64 numbers of the interpreter follow
    these depths up to rounding only, and a corner may leave the layer by
    that much. *)
Theorem rupture_surface_depths_within_layer
  (self : PointSource) (mag : R) (np : NodalPlane) (hypocenter : Point) :
  (forall origin h v az, depth (point_at origin h v az) = depth origin + v) ->
  0 <= upper_seismogenic_depth self < lower_seismogenic_depth self ->
  0 < get_median_area self mag (rake np) ->
  0 < rupture_aspect_ratio self ->
  0 < dip np <= 90 ->
  upper_seismogenic_depth self <= depth hypocenter
    <= lower_seismogenic_depth self ->
  exists surface,
    _get_rupture_surface point_at self mag np hypocenter = inr surface
    /\ Forall (fun corner =>
                 upper_seismogenic_depth self <= depth corner
                 <= lower_seismogenic_depth self)
         [top_left surface; top_right surface;
          bottom_right surface; bottom_left surface].
Proof.
  intros Hpt Hlayer Harea Hasp Hdip Hdepth.
  destruct (rupture_surface_inr self mag np hypocenter
              Harea Hasp Hdip (proj2 Hlayer) Hdepth)
    as (l & w & _ & Hheight & Hsurface).
  eexists. split; [exact Hsurface|].
  set (height := w * sin (math_radians (dip np))) in *.
  unfold surface_around. cbn [top_left top_right bottom_right bottom_left].
  assert (Hcenter :
            upper_seismogenic_depth self + height / 2
            <= depth hypocenter
               + vertical_shift self hypocenter (height / 2)
            <= lower_seismogenic_depth self - height / 2).
  { unfold vertical_shift.
    destruct (Rlt_dec (upper_seismogenic_depth self - depth hypocenter
                       + height / 2) 0) as [Hfirst | Hfirst].
    - destruct (Rgt_dec (lower_seismogenic_depth self - depth hypocenter
                         - height / 2) 0) as [Hsecond | Hsecond]; lra.
    - lra. }
  repeat (apply Forall_cons;
          [rewrite !Hpt, rupture_center_depth by exact Hpt; lra|]).
  apply Forall_nil.
Qed.

(** C2: the vertical shift follows the three-way policy and the rupture
    center is placed accordingly.  With [first = upper - depth + height/2]
    and [second = lower - depth - height/2]: the shift is [first] when
    [first] is not negative, 0 when [first] is negative and [second]
    positive, and [second] otherwise; a negative shift moves the center from
    the hypocenter by [|vshift / tan dip|] along the azimuth up, a positive
    one by the same distance along the azimuth down, both with the vertical
    increment [vshift], and a zero shift leaves the center at the
    hypocenter; the surface returned is the one built around that center. *)
Theorem vertical_shift_policy
  (self : PointSource) (mag : R) (np : NodalPlane) (hypocenter : Point) :
  let rdip := math_radians (dip np) in
  let azimuth_right := strike np in
  let azimuth_down := py_mod (azimuth_right + 90) 360 in
  let azimuth_left := py_mod (azimuth_down + 90) 360 in
  let azimuth_up := py_mod (azimuth_left + 90) 360 in
  0 < get_median_area self mag (rake np) ->
  0 < rupture_aspect_ratio self -> 0 < dip np <= 90 ->
  upper_seismogenic_depth self < lower_seismogenic_depth self ->
  upper_seismogenic_depth self <= depth hypocenter
    <= lower_seismogenic_depth self ->
  exists rup_length rup_width vshift rupture_center,
    _get_rupture_dimensions self mag np = inr (rup_length, rup_width)
    /\ (let height := rup_width * sin rdip in
        let first :=
          upper_seismogenic_depth self - depth hypocenter + height / 2 in
        let second :=
          lower_seismogenic_depth self - depth hypocenter - height / 2 in
        (0 <= first -> vshift = first)
        /\ (first < 0 -> 0 < second -> vshift = 0)
        /\ (first < 0 -> second <= 0 -> vshift = second))
    /\ (vshift < 0 ->
        rupture_center
        = point_at hypocenter (Rabs (vshift / tan rdip)) vshift azimuth_up)
    /\ (0 < vshift ->
        rupture_center
        = point_at hypocenter (Rabs (vshift / tan rdip)) vshift azimuth_down)
    /\ (vshift = 0 -> rupture_center = hypocenter)
    /\ _get_rupture_surface point_at self mag np hypocenter
       = inr (surface_around point_at self np rupture_center rup_length
                (rup_width * cos rdip) (rup_width * sin rdip)
                azimuth_right azimuth_down azimuth_left azimuth_up).
Proof.
  intros rdip azimuth_right azimuth_down azimuth_left azimuth_up
    Harea Hasp Hdip Hlayer Hdepth.
  destruct (rupture_surface_inr self mag np hypocenter
              Harea Hasp Hdip Hlayer Hdepth)
    as (l & w & Hdim & _ & Hsurface).
  fold rdip azimuth_right azimuth_down azimuth_left azimuth_up in Hsurface.
  exists l, w, (vertical_shift self hypocenter (w * sin rdip / 2)),
    (rupture_center_of point_at hypocenter
       (vertical_shift self hypocenter (w * sin rdip / 2))
       rdip azimuth_up azimuth_down).
  split; [exact Hdim|].
  split.
  { cbv zeta. unfold vertical_shift.
    destruct (Rlt_dec (upper_seismogenic_depth self - depth hypocenter
                       + w * sin rdip / 2) 0) as [Hfirst | Hfirst].
    - destruct (Rgt_dec (lower_seismogenic_depth self - depth hypocenter
                         - w * sin rdip / 2) 0) as [Hsecond | Hsecond].
      + repeat split; intros; lra.
      + repeat split; intros; lra.
    - repeat split; intros; lra. }
  set (vshift := vertical_shift self hypocenter (w * sin rdip / 2)) in *.
  unfold rupture_center_of.
  repeat split; try exact Hsurface; intros Hv.
  - destruct (Req_dec_T vshift 0) as [Hz | _]; [lra|].
    destruct (Rlt_dec vshift 0) as [_ | Hn]; [reflexivity | lra].
  - destruct (Req_dec_T vshift 0) as [Hz | _]; [lra|].
    destruct (Rlt_dec vshift 0) as [Hn | _]; [lra | reflexivity].
  - destruct (Req_dec_T vshift 0) as [_ | Hz]; [reflexivity | contradiction].
Qed.

End SurfaceFacts.

(** The unit area, the vertical plane and a hypocenter at 4 km: the rupture
    is one by one, the first shift is negative and the second positive, so
    nothing moves. *)
Lemma rupture_dimensions_preserve_area_witness :
  exists rup_length rup_width,
    _get_rupture_dimensions example_source 5 example_plane
    = inr (rup_length, rup_width)
    /\ rup_length * rup_width = 1.
Proof.
  destruct (rupture_dimensions_preserve_area example_source 5 example_plane)
    as (l & w & Hdim & Harea & _); simpl; try lra.
  exists l, w. split; [exact Hdim | exact Harea].
Defined.

Lemma rupture_surface_depths_within_layer_witness :
  exists surface,
    _get_rupture_surface example_point_at example_source 5 example_plane
      (mkPoint 0 0 4) = inr surface
    /\ Forall (fun corner => 0 <= depth corner <= 10)
         [top_left surface; top_right surface;
          bottom_right surface; bottom_left surface].
Proof.
  apply (rupture_surface_depths_within_layer example_point_at
           example_source 5 example_plane (mkPoint 0 0 4));
    simpl; try lra.
  intros origin h v az. reflexivity.
Defined.

Lemma vertical_shift_policy_witness :
  exists rup_length rup_width vshift rupture_center,
    _get_rupture_dimensions example_source 5 example_plane
    = inr (rup_length, rup_width)
    /\ (vshift = 0 -> rupture_center = mkPoint 0 0 4)
    /\ _get_rupture_surface example_point_at example_source 5 example_plane
         (mkPoint 0 0 4)
       = inr (surface_around example_point_at example_source example_plane
                rupture_center rup_length
                (rup_width * cos (math_radians 90))
                (rup_width * sin (math_radians 90))
                0 (py_mod (0 + 90) 360)
                (py_mod (py_mod (0 + 90) 360 + 90) 360)
                (py_mod (py_mod (py_mod (0 + 90) 360 + 90) 360 + 90) 360)).
Proof.
  destruct (vertical_shift_policy example_point_at example_source 5
              example_plane (mkPoint 0 0 4))
    as (l & w & v & c & Hdim & _ & _ & _ & Hzero & Hsurface);
    simpl; try lra.
  exists l, w, v, c. split; [exact Hdim | split; [exact Hzero | exact Hsurface]].
Defined.

(** ** Generators and the enumeration order *)

(** A loop whose every turn ends normally ends normally, and what it yields
    is related, turn by turn, to what the turns are expected to yield. *)
Lemma gen_for_Forall2 {X A C : Type} (rel : C -> A -> Prop)
  (xs : list X) (body : X -> gen A) (expected : X -> list C) :
  (forall x, In x xs ->
             exists out, body x = (out, None) /\ Forall2 rel (expected x) out) ->
  exists out,
    gen_for xs body = (out, None) /\ Forall2 rel (flat_map expected xs) out.
Proof.
  induction xs as [|x xs IH]; intros Hbody; simpl.
  - exists []. split; [reflexivity | constructor].
  - destruct (Hbody x (or_introl eq_refl)) as (out & Hx & Hrel).
    destruct IH as (out' & Hxs & Hrel').
    { intros y Hy. apply Hbody. right. exact Hy. }
    rewrite Hx, Hxs. exists (out ++ out').
    split; [reflexivity | apply Forall2_app; assumption].
Qed.

Lemma flat_map_singleton {X C : Type} (h : X -> C) (xs : list X) :
  flat_map (fun x => [h x]) xs = map h xs.
Proof.
  induction xs as [|x xs IH]; simpl; [reflexivity | rewrite IH; reflexivity].
Qed.

Lemma flat_map_length_const {X C : Type} (f : X -> list C) (n : nat)
  (xs : list X) :
  (forall x, length (f x) = n) -> length (flat_map f xs) = (length xs * n)%nat.
Proof.
  intros Hf. induction xs as [|x xs IH]; simpl; [reflexivity|].
  rewrite length_app, Hf, IH. reflexivity.
Qed.

Lemma combinations_length (self : PointSource) :
  length (combinations self)
  = (length (get_annual_occurrence_rates self)
     * length (nodal_plane_distribution self)
     * length (hypocenter_distribution self))%nat.
Proof.
  unfold combinations.
  rewrite (flat_map_length_const _
             (length (nodal_plane_distribution self)
              * length (hypocenter_distribution self))).
  - lia.
  - intros [mag rate].
    apply flat_map_length_const. intros [np_prob np]. apply length_map.
Qed.

(** ** __init__ *)

(** A source that the constructor accepts has the attributes it was given,
    a non-negative upper depth strictly above the lower one, and every
    hypocenter depth within the layer. *)
Lemma init_inr (cls : source_class) (source_id name trt : String.string)
  (mfd : list (R * R)) (spacing : R) (msr : R -> R -> R)
  (aspect upper lower : R) (loc : Point)
  (npd : list (R * NodalPlane)) (hd : list (R * R)) (self : PointSource) :
  __init__ cls source_id name trt mfd spacing msr aspect upper lower loc
    npd hd = inr self ->
  self = mkPointSource cls source_id name trt mfd spacing msr aspect
           upper lower loc npd hd
  /\ 0 <= upper < lower
  /\ forall prob d, In (prob, d) hd -> upper <= d <= lower.
Proof.
  unfold __init__, Rgtb, Rltb.
  destruct (Rlt_dec upper 0) as [Hneg | Hpos]; [discriminate|].
  destruct (Rlt_dec upper lower) as [Hlt | Hge]; [|discriminate].
  cbn [negb].
  destruct (forallb _ hd) eqn:Hall; [|discriminate].
  cbn [negb]. intros H. injection H as <-.
  split; [reflexivity|]. split; [lra|].
  intros prob d Hin. rewrite forallb_forall in Hall.
  specialize (Hall _ Hin). cbn in Hall.
  apply andb_true_iff in Hall as [H1 H2].
  apply Rleb_true_inv in H1. apply Rleb_true_inv in H2. lra.
Qed.

Section EnumerationFacts.

Variable point_at : Point -> R -> R -> R -> Point.
Variable TOM : Type.

(** C7: for a source that the constructor accepted, with a positive aspect
    ratio, positive areas and dips in (0, 90], and a rate scaling factor
    that is positive (1 when it is left out), the generator ends normally
    after it yielded one rupture per combination, in the order magnitude
    bins, then nodal planes, then hypocenter depths: there are
    [|magnitudes| * |nodalPlanes| * |hypocenterDepths|] of them, each with
    the rate [magRate * nodalPlaneProb * hypocenterProb * factor] and the
    hypocenter at the longitude and latitude of the location given, at the
    sampled depth.  A factor that is not positive fails the assertion before
    anything is yielded. *)
Theorem iter_ruptures_enumeration
  (cls : source_class) (source_id name trt : String.string)
  (mfd : list (R * R)) (spacing : R) (msr : R -> R -> R)
  (aspect upper lower : R) (loc : Point)
  (npd : list (R * NodalPlane)) (hd : list (R * R)) (self : PointSource)
  (temporal_occurrence_model : TOM) (location : Point) :
  __init__ cls source_id name trt mfd spacing msr aspect upper lower loc
    npd hd = inr self ->
  0 < aspect ->
  (forall mag rate np_prob np,
      In (mag, rate) mfd -> In (np_prob, np) npd -> 0 < msr mag (rake np)) ->
  (forall np_prob np, In (np_prob, np) npd -> 0 < dip np <= 90) ->
  (forall rate_scaling_factor : option R,
      let factor :=
        match rate_scaling_factor with Some f => f | None => 1 end in
      0 < factor ->
      exists ruptures,
        _iter_ruptures_at_location point_at TOM self
          temporal_occurrence_model location rate_scaling_factor
        = (ruptures, None)
        /\ length ruptures = (length mfd * length npd * length hd)%nat
        /\ Forall2
             (rupture_of_combination point_at self temporal_occurrence_model
                location factor)
             (combinations self) ruptures)
  /\ (forall f : R,
        f <= 0 ->
        _iter_ruptures_at_location point_at TOM self
          temporal_occurrence_model location (Some f)
        = ([], Some AssertionError)).
Proof.
  intros Hinit Haspect Harea Hdip.
  apply init_inr in Hinit as (-> & Hlayer & Hdepths).
  split.
  - intros rsf factor Hfactor.
    assert (Hgen :
      exists ruptures,
        _iter_ruptures_at_location point_at TOM
          (mkPointSource cls source_id name trt mfd spacing msr aspect
             upper lower loc npd hd)
          temporal_occurrence_model location rsf
        = (ruptures, None)
        /\ Forall2
             (rupture_of_combination point_at
                (mkPointSource cls source_id name trt mfd spacing msr aspect
                   upper lower loc npd hd)
                temporal_occurrence_model location factor)
             (combinations
                (mkPointSource cls source_id name trt mfd spacing msr aspect
                   upper lower loc npd hd))
             ruptures).
    { unfold _iter_ruptures_at_location, combinations. fold factor.
      cbn [get_annual_occurrence_rates nodal_plane_distribution
             hypocenter_distribution tectonic_region_type type_of_self].
      destruct (Rlt_dec 0 factor) as [_ | Hn]; [|contradiction].
      apply gen_for_Forall2. intros [mag rate] Hmag.
      apply gen_for_Forall2. intros [np_prob np] Hnp.
      rewrite <- flat_map_singleton.
      apply gen_for_Forall2. intros [hc_prob hc_depth] Hhc.
      set (self := mkPointSource cls source_id name trt mfd spacing msr
                     aspect upper lower loc npd hd).
      destruct (rupture_surface_inr point_at self mag np
                  (mkPoint (longitude location) (latitude location) hc_depth))
        as (l & w & _ & _ & Hsurface).
      + exact (Harea mag rate np_prob np Hmag Hnp).
      + exact Haspect.
      + exact (Hdip np_prob np Hnp).
      + exact (proj2 Hlayer).
      + exact (Hdepths hc_prob hc_depth Hhc).
      + rewrite Hsurface. eexists. split; [reflexivity|].
        constructor; [|constructor].
        unfold rupture_of_combination, py_float. cbn.
        repeat split. exact Hsurface. }
    destruct Hgen as (ruptures & Hrun & Hrel).
    exists ruptures. split; [exact Hrun|]. split; [|exact Hrel].
    rewrite <- (Forall2_length Hrel), combinations_length. reflexivity.
  - intros f Hf. unfold _iter_ruptures_at_location.
    destruct (Rlt_dec 0 f) as [Hpos | _]; [lra | reflexivity].
Qed.

End EnumerationFacts.

Lemma init_example_source :
  __init__ PointSourceClass String.EmptyString String.EmptyString
    String.EmptyString [(5, 1)] 1 (fun _ _ => 1) 1 0 10 (mkPoint 0 0 0)
    [(1, example_plane)] [(1 / 2, 4); (1 / 2, 6)]
  = inr example_source.
Proof.
  unfold __init__, Rgtb, Rltb.
  destruct (Rlt_dec 0 0) as [H | _]; [lra|].
  destruct (Rlt_dec 0 10) as [_ | H]; [|lra].
  cbn [negb forallb]. rewrite !Rleb_true by lra. reflexivity.
Qed.

(** The example source yields its two ruptures, at 4 and at 6 km, when the
    factor is left out. *)
Lemma iter_ruptures_enumeration_witness :
  exists ruptures,
    iter_ruptures example_point_at unit example_source tt = (ruptures, None)
    /\ length ruptures = (1 * 1 * 2)%nat
    /\ Forall2
         (rupture_of_combination example_point_at example_source tt
            (mkPoint 0 0 0) 1)
         (combinations example_source) ruptures.
Proof.
  refine (proj1 (iter_ruptures_enumeration example_point_at unit
                   _ _ _ _ _ _ _ _ _ _ _ _ _ _ tt (mkPoint 0 0 0)
                   init_example_source _ _ _) None _).
  - lra.
  - intros mag rate np_prob np _ _. lra.
  - intros np_prob np [E | []]. injection E as <- <-. simpl. lra.
  - lra.
Defined.

End PointSrcFacts.

(** * Further facts about nhe/geo/_utils.py *)

Module GeoUtilsMore.

Import GeoUtils.
Import GeoUtilsFacts.
Local Open Scope Q_scope.

(** ** clean_points *)

Lemma drop_repeats_no_adjacent (point_eq : Point -> Point -> bool)
  (rest : list Point) :
  forall x, no_adjacent_repeats point_eq (x :: drop_repeats_of point_eq x rest).
Proof.
  induction rest as [|q rest IH]; intros x.
  - exact I.
  - cbn [drop_repeats_of]. destruct (point_eq q x) eqn:E.
    + apply IH.
    + split; [exact E | apply IH].
Qed.

(** X1: in what [clean_points] returns no point equals the point just before
    it, whatever the equality of points is, as long as a point equals
    itself. *)
Theorem clean_points_no_adjacent_repeats
  (point_eq : Point -> Point -> bool) (points : list Point) :
  (forall p, point_eq p p = true) ->
  no_adjacent_repeats point_eq (clean_points point_eq points).
Proof.
  intros Hrefl. rewrite (clean_points_refines point_eq Hrefl).
  destruct points as [|p rest]; [exact I|].
  apply drop_repeats_no_adjacent.
Qed.

Lemma clean_points_no_adjacent_repeats_witness :
  no_adjacent_repeats Point_eq
    (clean_points Point_eq
       [mkPoint 1 2 3; mkPoint 1 2 3; mkPoint 3 4 5; mkPoint 3 4 5]).
Proof.
  apply (clean_points_no_adjacent_repeats Point_eq). exact Point_eq_refl.
Defined.

Lemma drop_repeats_fixed (point_eq : Point -> Point -> bool)
  (rest : list Point) :
  forall x,
    no_adjacent_repeats point_eq (x :: rest) ->
    drop_repeats_of point_eq x rest = rest.
Proof.
  induction rest as [|q rest IH]; intros x H.
  - reflexivity.
  - destruct H as [Hq Hrest]. cbn [drop_repeats_of]. rewrite Hq.
    rewrite (IH q Hrest). reflexivity.
Qed.

(** X2: cleaning twice is cleaning once: [clean_points] leaves its own
    output as it is. *)
Theorem clean_points_idempotent
  (point_eq : Point -> Point -> bool) (points : list Point) :
  (forall p, point_eq p p = true) ->
  clean_points point_eq (clean_points point_eq points)
  = clean_points point_eq points.
Proof.
  intros Hrefl.
  rewrite (clean_points_refines point_eq Hrefl
             (clean_points point_eq points)).
  rewrite (clean_points_refines point_eq Hrefl points).
  destruct points as [|p rest]; [reflexivity|].
  cbn [cleanAdjacentDuplicates].
  rewrite (drop_repeats_fixed point_eq _ p
             (drop_repeats_no_adjacent point_eq rest p)).
  reflexivity.
Qed.

Lemma clean_points_idempotent_witness :
  let points := [mkPoint 1 2 3; mkPoint 1 2 3; mkPoint 3 4 5; mkPoint 1 2 3] in
  clean_points Point_eq (clean_points Point_eq points)
  = clean_points Point_eq points.
Proof.
  intros points.
  apply (clean_points_idempotent Point_eq points). exact Point_eq_refl.
Defined.

Lemma subsequence_length {A : Type} (sub full : list A) :
  subsequence sub full -> (length sub <= length full)%nat.
Proof. induction 1; simpl; lia. Qed.

Lemma subsequence_In {A : Type} (sub full : list A) :
  subsequence sub full -> forall x, In x sub -> In x full.
Proof.
  induction 1 as [|x sub full _ IH|x sub full _ IH]; intros y Hy.
  - exact Hy.
  - destruct Hy as [<- | Hy]; [left; reflexivity | right; apply IH, Hy].
  - right. apply IH, Hy.
Qed.

Lemma drop_repeats_subsequence (point_eq : Point -> Point -> bool)
  (rest : list Point) :
  forall x, subsequence (drop_repeats_of point_eq x rest) rest.
Proof.
  induction rest as [|q rest IH]; intros x; cbn [drop_repeats_of].
  - constructor.
  - destruct (point_eq q x).
    + apply subsequence_skip, IH.
    + apply subsequence_keep, IH.
Qed.

(** X3: [clean_points] only removes points: its output is the input with
    some points left out, in the same order, so it is no longer than the
    input and holds no new point; and it starts with the same point as the
    input. *)
Theorem clean_points_only_removes
  (point_eq : Point -> Point -> bool) (points : list Point) :
  (forall p, point_eq p p = true) ->
  subsequence (clean_points point_eq points) points
  /\ (length (clean_points point_eq points) <= length points)%nat
  /\ (forall p, In p (clean_points point_eq points) -> In p points)
  /\ hd_error (clean_points point_eq points) = hd_error points.
Proof.
  intros Hrefl.
  assert (Hsub : subsequence (clean_points point_eq points) points).
  { rewrite (clean_points_refines point_eq Hrefl).
    destruct points as [|p rest]; [constructor|].
    apply subsequence_keep, drop_repeats_subsequence. }
  split; [exact Hsub|].
  split; [apply subsequence_length; exact Hsub|].
  split; [apply subsequence_In; exact Hsub|].
  rewrite (clean_points_refines point_eq Hrefl).
  destruct points; reflexivity.
Qed.

Lemma clean_points_only_removes_witness :
  let points := [mkPoint 1 2 3; mkPoint 1 2 3; mkPoint 3 4 5] in
  (length (clean_points Point_eq points) <= 3)%nat
  /\ hd_error (clean_points Point_eq points) = Some (mkPoint 1 2 3).
Proof.
  intros points.
  destruct (clean_points_only_removes Point_eq points Point_eq_refl)
    as (_ & Hlen & _ & Hhd).
  exact (conj Hlen Hhd).
Defined.

(** ** get_longitudinal_extent *)

(** X4: without any assumption on the two longitudes, the extent stays
    within [[-180, 180]] exactly when they differ by at most 540 degrees (one
    correction by 360 is all the function does), and it is zero exactly when
    they differ by 0 or by a whole turn. *)
Theorem longitudinal_extent_domain (lon1 lon2 : Q) :
  (-180 <= get_longitudinal_extent lon1 lon2 <= 180
   <-> -540 <= lon2 - lon1 <= 540)
  /\ (get_longitudinal_extent lon1 lon2 == 0
      <-> lon2 - lon1 == 0 \/ lon2 - lon1 == 360 \/ lon2 - lon1 == -360).
Proof.
  split; split; intros H.
  - extent_split lon1 lon2; lra.
  - extent_split lon1 lon2; lra.
  - extent_split lon1 lon2.
    + right; left. lra.
    + right; right. lra.
    + left. lra.
  - extent_split lon1 lon2; destruct H as [H | [H | H]]; lra.
Qed.

(** ** get_spherical_bounding_box *)

Lemma valid_lon_false (lon : Q) :
  valid_lon lon = false <-> ~ (-180 < lon <= 180).
Proof.
  split.
  - intros H Hv. apply valid_lon_iff in Hv. congruence.
  - intros H. destruct (valid_lon lon) eqn:E; [|reflexivity].
    apply valid_lon_iff in E. contradiction.
Qed.

(** Every way the function can end, with what it says about the input. *)
Lemma bounding_box_outcomes (lons lats : list Q) :
  match get_spherical_bounding_box lons lats with
  | inl ValueError => lons = [] \/ lats = []
  | inl AssertionError =>
      lons <> [] /\ lats <> []
      /\ exists lon, In lon lons /\ ~ (-180 < lon <= 180)
  | inl RuntimeError =>
      lons <> [] /\ lats <> []
      /\ forall lon, In lon lons -> -180 < lon <= 180
  | inl ZeroDivisionError => False
  | inr _ =>
      lons <> [] /\ lats <> []
      /\ forall lon, In lon lons -> -180 < lon <= 180
  end.
Proof.
  destruct lats as [|lat lats']; [simpl; auto|].
  destruct lons as [|lon0 lons']; [simpl; auto|].
  set (lons := lon0 :: lons'). set (lats := lat :: lats').
  assert (Hlons : lons <> []) by discriminate.
  assert (Hlats : lats <> []) by discriminate.
  destruct (py_min_nonempty lons lon0 (or_introl eq_refl)) as [w0 Hmin].
  destruct (py_max_nonempty lons lon0 (or_introl eq_refl)) as [e0 Hmax].
  destruct (valid_lon w0 && valid_lon e0) eqn:Hv.
  - apply andb_true_iff in Hv as [Hw He].
    apply valid_lon_iff in Hw. apply valid_lon_iff in He.
    pose proof (lons_valid_of_borders lons w0 e0 Hmin Hmax Hw He) as Hvalid.
    destruct (bounding_box_raises_only_RuntimeError lons lats Hlons Hlats Hvalid)
      as [[box ->] | ->]; auto.
  - assert (Herr : get_spherical_bounding_box lons lats = inl AssertionError).
    { unfold get_spherical_bounding_box.
      change (py_max lats) with (@inr exn Q (fold_left Qmax lats' lat)).
      change (py_min lats) with (@inr exn Q (fold_left Qmin lats' lat)).
      cbn [bind]. rewrite Hmin, Hmax. cbn [bind]. rewrite Hv. reflexivity. }
    rewrite Herr. split; [exact Hlons|]. split; [exact Hlats|].
    apply py_min_inr in Hmin as [Hw0 _]. apply py_max_inr in Hmax as [He0 _].
    apply andb_false_iff in Hv as [Hv | Hv]; apply valid_lon_false in Hv;
      eauto.
Qed.

Lemma all_valid_or_not (lons : list Q) :
  (forall lon, In lon lons -> -180 < lon <= 180)
  \/ exists lon, In lon lons /\ ~ (-180 < lon <= 180).
Proof.
  destruct (forallb valid_lon lons) eqn:E.
  - left. intros lon Hin. rewrite forallb_forall in E.
    apply valid_lon_iff, E, Hin.
  - right. apply forallb_false_exists in E as (lon & Hin & Hv).
    exists lon. split; [exact Hin | apply valid_lon_false; exact Hv].
Qed.

(** X5: which exception for which input.  The function raises [ValueError]
    exactly when one of the two sequences is empty, [AssertionError] exactly
    when both are non-empty and some longitude lies outside (-180, 180], and
    [RuntimeError] only on non-empty sequences of valid longitudes. *)
Theorem bounding_box_exceptions (lons lats : list Q) :
  (get_spherical_bounding_box lons lats = inl ValueError
   <-> lons = [] \/ lats = [])
  /\ (get_spherical_bounding_box lons lats = inl AssertionError
      <-> lons <> [] /\ lats <> []
          /\ exists lon, In lon lons /\ ~ (-180 < lon <= 180))
  /\ (get_spherical_bounding_box lons lats = inl RuntimeError ->
      lons <> [] /\ lats <> []
      /\ forall lon, In lon lons -> -180 < lon <= 180)
  /\ get_spherical_bounding_box lons lats <> inl ZeroDivisionError.
Proof.
  pose proof (bounding_box_outcomes lons lats) as H.
  split; [|split; [|split]].
  - split.
    + intros E. rewrite E in H. exact H.
    + intros Hempty.
      destruct (get_spherical_bounding_box lons lats) as [[] | box];
        try reflexivity; exfalso;
        try (destruct H as (Hl & Ha & _);
             destruct Hempty as [-> | ->]; contradiction).
      exact H.
  - split.
    + intros E. rewrite E in H. exact H.
    + intros (Hl & Ha & lon & Hin & Hbad).
      destruct (get_spherical_bounding_box lons lats) as [[] | box];
        try reflexivity; exfalso.
      * destruct H; contradiction.
      * exact H.
      * destruct H as (_ & _ & Hvalid). apply Hbad, Hvalid, Hin.
      * destruct H as (_ & _ & Hvalid). apply Hbad, Hvalid, Hin.
  - intros E. rewrite E in H. exact H.
  - intros E. rewrite E in H. exact H.
Qed.

(** What a returned box is, in terms of the input. *)
Lemma bounding_box_returned
  (lons lats : list Q) (west east north south : Q) :
  get_spherical_bounding_box lons lats = inr (west, east, north, south) ->
  In west lons /\ In east lons
  /\ (forall lon, In lon lons ->
                  0 <= get_longitudinal_extent west lon
                  /\ 0 <= get_longitudinal_extent lon east)
  /\ (forall lat, In lat lats -> south <= lat <= north)
  /\ (forall lon, In lon lons -> -180 < lon <= 180)
  /\ south <= north.
Proof.
  intros H.
  apply bounding_box_inr in H
    as (w0 & e0 & Hn & Hs & Hmin & Hmax & Hw0 & He0 & Hpath).
  pose proof (lons_valid_of_borders _ _ _ Hmin Hmax Hw0 He0) as Hvalid.
  apply py_max_inr in Hn as [Hnin Hn]. apply py_min_inr in Hs as [_ Hs].
  assert (Hlat : forall lat, In lat lats -> south <= lat <= north)
    by (intros lat Hin; split; auto).
  assert (Hsn : south <= north) by (apply Hs, Hnin).
  apply py_min_inr in Hmin as [Hw0in Hw0le].
  apply py_max_inr in Hmax as [He0in He0le].
  destruct Hpath as [(Hx & -> & ->) | (Hx & Hw & He & Hall)].
  - repeat (split; [assumption|]). split; [|auto].
    intros lon Hin.
    pose proof (Hw0le _ Hin) as H1. pose proof (He0le _ Hin) as H2.
    pose proof (Hw0le _ He0in) as H3.
    assert (Hd : e0 - w0 <= 180) by (extent_split w0 e0; lra).
    split; [extent_split w0 lon | extent_split lon e0]; lra.
  - apply py_min_inr in Hw as [Hw _]. apply filter_In in Hw as [Hw _].
    apply py_max_inr in He as [He _]. apply filter_In in He as [He _].
    repeat (split; [assumption|]). split; [|auto].
    intros lon Hin. rewrite forallb_forall in Hall.
    apply within_arc_iff, Hall, Hin.
Qed.

(** X6: the box holds every point it was computed from.  On a normal return
    the two borders are longitudes of the input, every longitude of the
    input lies at a non-negative extent from west and to east, and every
    latitude lies between south and north. *)
Theorem bounding_box_contains_points
  (lons lats : list Q) (west east north south : Q) :
  get_spherical_bounding_box lons lats = inr (west, east, north, south) ->
  In west lons /\ In east lons
  /\ (forall lon, In lon lons ->
                  0 <= get_longitudinal_extent west lon
                  /\ 0 <= get_longitudinal_extent lon east)
  /\ (forall lat, In lat lats -> south <= lat <= north).
Proof.
  intros H.
  destruct (bounding_box_returned _ _ _ _ _ _ H)
    as (Hw & He & Harc & Hlat & _).
  auto.
Qed.

Lemma bounding_box_contains_points_witness :
  0 <= get_longitudinal_extent 178 180
  /\ 0 <= get_longitudinal_extent 180 (-20).
Proof.
  apply (proj1 (proj2 (proj2 (bounding_box_contains_points
                                [-20; 180; 179; 178] [-1; -2; 1; 2]
                                178 (-20) 2 (-2) eq_refl))) 180).
  right. left. reflexivity.
Defined.

(** X7: the two shapes of a box.  Either west is not greater than east and
    every longitude lies between them, or the box wraps the date line: east
    is negative, west positive, and every longitude is at or beyond one of
    them (none lies strictly between east and west, and none is zero).  The
    first shape is the one returned exactly when the greatest and the least
    longitude differ by at most 180. *)
Theorem bounding_box_shapes
  (lons lats : list Q) (west east north south : Q) :
  get_spherical_bounding_box lons lats = inr (west, east, north, south) ->
  (west <= east /\ east - west <= 180
   /\ forall lon, In lon lons -> west <= lon <= east)
  \/ (east < 0 /\ 0 < west /\ 180 < west - east
      /\ (forall lon, In lon lons -> west <= lon \/ lon <= east)
      /\ exists a b, In a lons /\ In b lons /\ 180 < b - a).
Proof.
  intros H.
  pose proof (bounding_box_returned _ _ _ _ _ _ H)
    as (_ & _ & Harc & _).
  apply bounding_box_inr in H
    as (w0 & e0 & _ & _ & Hmin & Hmax & Hw0 & He0 & Hpath).
  pose proof (lons_valid_of_borders _ _ _ Hmin Hmax Hw0 He0) as Hvalid.
  apply py_min_inr in Hmin as [Hw0in Hw0le].
  apply py_max_inr in Hmax as [He0in He0le].
  pose proof (Hw0le _ He0in) as Hwe.
  destruct Hpath as [(Hx & -> & ->) | (Hx & Hw & He & Hall)].
  - left. split; [exact Hwe|]. split; [extent_split w0 e0; lra|].
    intros lon Hin. split; auto.
  - right.
    apply py_min_inr in Hw as [Hw Hwle]. apply filter_In in Hw as [Hw Hwpos].
    apply py_max_inr in He as [He Hele]. apply filter_In in He as [He Heneg].
    apply Qltb_lt in Hwpos. apply Qltb_lt in Heneg.
    pose proof (Hvalid _ Hw) as Vw. pose proof (Hvalid _ He) as Ve.
    split; [exact Heneg|]. split; [exact Hwpos|].
    split.
    { destruct (Harc _ Hw) as [_ Hwe']. extent_split west east; lra. }
    split.
    + intros lon Hin.
      destruct (Qlt_le_dec 0 lon) as [Hpos | Hnpos].
      * left. apply Hwle, filter_In. split; [exact Hin | apply Qltb_lt, Hpos].
      * destruct (Qlt_le_dec lon 0) as [Hneg | Hnneg].
        -- right. apply Hele, filter_In.
           split; [exact Hin | apply Qltb_lt, Hneg].
        -- exfalso. destruct (Harc _ Hin) as [Hwl _].
           pose proof (Hvalid _ Hin) as Vl.
           extent_split west lon; lra.
    + exists w0, e0. repeat (split; [assumption|]).
      extent_split w0 e0; lra.
Qed.

Lemma bounding_box_shapes_witness :
  (178 <= -20 /\ -20 - 178 <= 180
   /\ forall lon, In lon [-20; 180; 179; 178] -> 178 <= lon <= -20)
  \/ (-20 < 0 /\ 0 < 178 /\ 180 < 178 - -20
      /\ (forall lon, In lon [-20; 180; 179; 178] -> 178 <= lon \/ lon <= -20)
      /\ exists a b, In a [-20; 180; 179; 178] /\ In b [-20; 180; 179; 178]
                     /\ 180 < b - a).
Proof.
  exact (bounding_box_shapes [-20; 180; 179; 178] [-1; -2; 1; 2]
           178 (-20) 2 (-2) eq_refl).
Defined.

(** ** get_stereographic_projection *)

(** X8: the projection built for a box that [get_spherical_bounding_box]
    returned is centered in the middle of it: its central latitude is the
    mean of south and north and lies between them, its central meridian is
    a valid longitude, and the extent from west to the central meridian
    and from the central meridian to east are both half the extent of the
    box, also when the box wraps the date line. *)
Theorem stereographic_projection_centered
  (lons lats : list Q) (west east north south : Q) :
  get_spherical_bounding_box lons lats = inr (west, east, north, south) ->
  let proj := get_stereographic_projection west east north south in
  lat_0 proj == (north + south) / 2
  /\ south <= lat_0 proj <= north
  /\ -180 < lon_0 proj <= 180
  /\ get_longitudinal_extent west (lon_0 proj)
     == get_longitudinal_extent west east / 2
  /\ get_longitudinal_extent (lon_0 proj) east
     == get_longitudinal_extent west east / 2.
Proof.
  intros H proj.
  destruct (bounding_box_returned _ _ _ _ _ _ H)
    as (Hwin & Hein & Harc & _ & Hvalid & Hsn).
  pose proof (Hvalid _ Hwin) as Hw. pose proof (Hvalid _ Hein) as He.
  destruct (Harc _ Hwin) as [_ Hx].
  assert (Hlat : lat_0 proj == (north + south) * (1 # 2)) by reflexivity.
  split; [reflexivity|].
  split; [rewrite Hlat; split; lra|].
  unfold proj, get_stereographic_projection. cbn [lon_0].
  set (x := get_longitudinal_extent west east) in *.
  assert (Hxe : x == east - west \/ x == east - west - 360
                \/ x == east - west + 360).
  { unfold x. extent_split west east; lra. }
  assert (Hxhi : x <= 180) by (unfold x; extent_split west east; lra).
  assert (Hm : x / 2 == x * (1 # 2)) by reflexivity.
  set (m := x / 2) in *.
  destruct (Qltb 180 (west + m)) eqn:E.
  - apply Qltb_lt in E.
    split; [lra|].
    split; [extent_split west (west + m - 360)
           | extent_split (west + m - 360) east];
      destruct Hxe as [Hxe | [Hxe | Hxe]]; lra.
  - apply Qltb_ge in E.
    split; [lra|].
    split; [extent_split west (west + m)
           | extent_split (west + m) east];
      destruct Hxe as [Hxe | [Hxe | Hxe]]; lra.
Qed.

Lemma stereographic_projection_centered_witness :
  let proj := get_stereographic_projection 178 (-20) 2 (-2) in
  -180 < lon_0 proj <= 180
  /\ get_longitudinal_extent 178 (lon_0 proj)
     == get_longitudinal_extent 178 (-20) / 2.
Proof.
  intros proj.
  destruct (stereographic_projection_centered
              [-20; 180; 179; 178] [-1; -2; 1; 2] 178 (-20) 2 (-2) eq_refl)
    as (_ & _ & Hlon & Hmid & _).
  exact (conj Hlon Hmid).
Defined.

(** ** line_intersects_itself *)

Section LineIntersectsItselfMore.

Variable proj_apply : Proj -> list Q -> list Q -> list Q * list Q.
Variable is_simple : list (Q * Q) -> bool.

(** With four points or more, in lists of the same length, the function
    ends as [get_spherical_bounding_box] does when that raises, and returns
    a boolean when that returns. *)
Lemma line_intersects_itself_long (lons lats : list Q) (closed_shape : bool) :
  length lons = length lats -> (4 <= length lons)%nat ->
  match get_spherical_bounding_box lons lats with
  | inl e =>
      line_intersects_itself proj_apply is_simple lons lats closed_shape
      = inl e
  | inr _ =>
      exists b,
        line_intersects_itself proj_apply is_simple lons lats closed_shape
        = inr b
  end.
Proof.
  intros Hlen Hn. unfold line_intersects_itself.
  rewrite Hlen, Nat.eqb_refl. cbn [py_assert bind ret]. rewrite <- Hlen.
  destruct (Nat.leb (length lons) 3) eqn:E;
    [apply Nat.leb_le in E; lia|].
  destruct (get_spherical_bounding_box lons lats)
    as [e | [[[west east] north] south]]; cbn [bind]; [reflexivity|].
  destruct (proj_apply _ lons lats) as [xx yy].
  destruct (is_simple (combine xx yy)); cbn [negb]; [|eauto].
  destruct closed_shape; [|eauto].
  destruct (proj_apply _ (numpy_roll1 lons) (numpy_roll1 lats)) as [xx' yy'].
  destruct (is_simple (combine xx' yy')); cbn [negb]; eauto.
Qed.

(** X9: which exception for which input.  The function raises
    [AssertionError] exactly when the two lists differ in length or there
    are four points or more and some longitude lies outside (-180, 180];
    it raises [RuntimeError] exactly when the lists have the same length,
    four points or more, and [get_spherical_bounding_box] raises it; and it
    raises nothing else: the [ValueError] of an empty bounding box cannot
    come through. *)
Theorem line_intersects_itself_exceptions
  (lons lats : list Q) (closed_shape : bool) :
  (line_intersects_itself proj_apply is_simple lons lats closed_shape
   = inl AssertionError
   <-> length lons <> length lats
       \/ ((4 <= length lons)%nat
           /\ exists lon, In lon lons /\ ~ (-180 < lon <= 180)))
  /\ (line_intersects_itself proj_apply is_simple lons lats closed_shape
      = inl RuntimeError
      <-> length lons = length lats /\ (4 <= length lons)%nat
          /\ get_spherical_bounding_box lons lats = inl RuntimeError)
  /\ line_intersects_itself proj_apply is_simple lons lats closed_shape
     <> inl ValueError
  /\ line_intersects_itself proj_apply is_simple lons lats closed_shape
     <> inl ZeroDivisionError.
Proof.
  destruct (Nat.eq_dec (length lons) (length lats)) as [Hlen | Hlen].
  - destruct (le_lt_dec 4 (length lons)) as [Hn | Hn].
    + pose proof (line_intersects_itself_long lons lats closed_shape Hlen Hn)
        as Hrun.
      pose proof (bounding_box_outcomes lons lats) as Hbox.
      destruct (get_spherical_bounding_box lons lats) as [[] | box] eqn:E.
      * (* AssertionError *)
        rewrite Hrun. destruct Hbox as (_ & _ & Hbad).
        repeat split; try discriminate; auto.
        intros (_ & _ & Habs). discriminate Habs.
      * (* ValueError *)
        exfalso. destruct Hbox as [-> | ->]; simpl in *; lia.
      * contradiction.
      * (* RuntimeError *)
        rewrite Hrun. destruct Hbox as (_ & _ & Hvalid).
        repeat split; try discriminate; auto.
        intros [Hne | (_ & lon & Hin & Hbad)];
          [contradiction | exfalso; apply Hbad, Hvalid, Hin].
      * destruct Hrun as [b ->]. destruct Hbox as (_ & _ & Hvalid).
        repeat split; try discriminate.
        -- intros [Hne | (_ & lon & Hin & Hbad)];
             [contradiction | exfalso; apply Hbad, Hvalid, Hin].
        -- intros (_ & _ & Habs). discriminate Habs.
    + assert (Hret : line_intersects_itself proj_apply is_simple lons lats
                       closed_shape = inr false).
      { unfold line_intersects_itself.
        rewrite Hlen, Nat.eqb_refl. cbn [py_assert bind ret]. rewrite <- Hlen.
        assert (E : Nat.leb (length lons) 3 = true)
          by (apply Nat.leb_le; lia).
        rewrite E. reflexivity. }
      rewrite Hret. repeat split; try discriminate.
      * intros [Hne | (Hge & _)]; [contradiction | lia].
      * intros (_ & Hge & _). lia.
  - assert (Herr : line_intersects_itself proj_apply is_simple lons lats
                     closed_shape = inl AssertionError).
    { unfold line_intersects_itself.
      apply Nat.eqb_neq in Hlen. rewrite Hlen. reflexivity. }
    rewrite Herr. repeat split; try discriminate; auto.
    intros (Heq & _). contradiction.
Qed.

(** X10: asking for the closed shape only adds a test.  A line found to
    intersect itself is still found so with [closed_shape] set, a line
    found simple with [closed_shape] set is simple without it, and the two
    calls raise the same exceptions. *)
Theorem line_intersects_itself_closed_shape (lons lats : list Q) :
  (line_intersects_itself proj_apply is_simple lons lats false = inr true ->
   line_intersects_itself proj_apply is_simple lons lats true = inr true)
  /\ (line_intersects_itself proj_apply is_simple lons lats true = inr false ->
      line_intersects_itself proj_apply is_simple lons lats false = inr false)
  /\ (forall e,
        line_intersects_itself proj_apply is_simple lons lats true = inl e
        <-> line_intersects_itself proj_apply is_simple lons lats false
            = inl e).
Proof.
  unfold line_intersects_itself.
  destruct (Nat.eqb (length lons) (length lats)); cbn [py_assert bind ret raise];
    [|repeat split; intros; try discriminate; assumption].
  destruct (Nat.leb (length lons) 3);
    [repeat split; intros; try discriminate; assumption|].
  destruct (get_spherical_bounding_box lons lats)
    as [e0 | [[[west east] north] south]]; cbn [bind];
    [repeat split; intros; try discriminate; assumption|].
  destruct (proj_apply _ lons lats) as [xx yy].
  destruct (is_simple (combine xx yy)); cbn [negb];
    [|repeat split; intros; try discriminate; reflexivity].
  destruct (proj_apply _ (numpy_roll1 lons) (numpy_roll1 lats)) as [xx' yy'].
  destruct (is_simple (combine xx' yy')); cbn [negb];
    repeat split; intros; try discriminate; reflexivity.
Qed.

End LineIntersectsItselfMore.

End GeoUtilsMore.

(** * Further facts about openquake/hazardlib/source/point.py *)

Module PointSrcMore.

Import PointSrc.
Import PointSrcFacts.
Local Open Scope R_scope.

Lemma Rleb_false (x y : R) : ~ x <= y -> Rleb x y = false.
Proof. intros H. unfold Rleb. destruct (Rle_dec x y); [contradiction | reflexivity]. Qed.

(** ** _get_rupture_dimensions *)



(** Every way [_get_rupture_dimensions] can end. *)
Lemma rupture_dimensions_outcomes
  (self : PointSource) (mag : R) (np : NodalPlane) :
  let area := get_median_area self mag (rake np) in
  let product := area * rupture_aspect_ratio self in
  let layer := lower_seismogenic_depth self - upper_seismogenic_depth self in
  let sine := sin (math_radians (dip np)) in
  match _get_rupture_dimensions self mag np with
  | inl ValueError => product < 0
  | inl ZeroDivisionError =>
      product = 0 \/ (0 < product /\ (sine = 0 \/ (layer = 0 /\ 0 < area)))
  | inl AssertionError => False
  | inl RuntimeError => False
  | inr _ => 0 < product /\ sine <> 0 /\ ~ (layer = 0 /\ 0 < area)
  end.
Proof.
  intros area product layer sine.
  unfold _get_rupture_dimensions, math_sqrt, py_div.
  fold area. fold product. fold layer. fold sine.
  destruct (Rlt_dec product 0) as [Hneg | Hnneg]; cbn [bind raise ret];
    [exact Hneg|].
  destruct (Req_dec_T (sqrt product) 0) as [Hz | Hnz]; cbn [bind raise ret].
  { left. apply sqrt_eq_0 in Hz; lra. }
  assert (Hpos : 0 < product).
  { destruct (Rle_lt_or_eq_dec 0 product) as [H | H]; [lra | exact H|].
    exfalso. apply Hnz. rewrite <- H. apply sqrt_0. }
  assert (Hroot : 0 < sqrt product) by (apply sqrt_lt_R0; exact Hpos).
  destruct (Req_dec_T sine 0) as [Hs | Hs]; cbn [bind raise ret].
  { right. auto. }
  assert (Hwidth : 0 < area -> 0 < area / sqrt product)
    by (intros; apply Rdiv_lt_0_compat; assumption).
  assert (Hwidth' : area <= 0 -> area / sqrt product <= 0).
  { intros H. unfold Rdiv.
    replace 0 with (0 * / sqrt product) by ring.
    apply Rmult_le_compat_r; [|exact H].
    apply Rlt_le, Rinv_0_lt_compat, Hroot. }
  assert (Hzero : layer / sine = 0 <-> layer = 0).
  { split; intros H.
    - apply Rmult_eq_compat_r with (r := sine) in H.
      replace (layer / sine * sine) with layer in H by (field; exact Hs).
      lra.
    - rewrite H. unfold Rdiv. ring. }
  destruct (Rgt_dec (area / sqrt product) (layer / sine)) as [Hclip | Hfit].
  - destruct (Req_dec_T (layer / sine) 0) as [Hm | Hm]; cbn [bind raise ret].
    + right. split; [exact Hpos|]. right. split; [apply Hzero, Hm|].
      destruct (Rlt_le_dec 0 area) as [H | H]; [exact H|].
      specialize (Hwidth' H). lra.
    + split; [exact Hpos|]. split; [exact Hs|].
      intros [Hl _]. apply Hm, Hzero, Hl.
  - split; [exact Hpos|]. split; [exact Hs|].
    intros [Hl Ha]. apply Hfit. specialize (Hwidth Ha).
    apply Hzero in Hl. lra.
Qed.

(** Between 0 and 90 degrees the sine of the dip is zero at 0 only. *)
Lemma sin_dip_zero (d : R) : 0 <= d <= 90 -> (sin (math_radians d) = 0 <-> d = 0).
Proof.
  intros [Hlo Hhi]. split.
  - intros Hsin. destruct (Rle_lt_or_eq_dec 0 d Hlo) as [Hpos | Heq];
      [|symmetry; exact Heq].
    pose proof (sin_dip_pos d (conj Hpos Hhi)). lra.
  - intros ->. unfold math_radians.
    replace (0 * PI / 180) with 0 by (unfold Rdiv; ring). apply sin_0.
Qed.

(** X13: which exception for which input, for a dip from 0 to 90 degrees.
    [_get_rupture_dimensions] raises [ValueError] exactly when the area
    times the aspect ratio is negative (the square root), and
    [ZeroDivisionError] exactly when that product is zero, or it is positive
    and either the dip is 0 or the area is positive and the layer has no
    thickness; it raises nothing else. *)
Theorem rupture_dimensions_exceptions
  (self : PointSource) (mag : R) (np : NodalPlane) :
  let area := get_median_area self mag (rake np) in
  let product := area * rupture_aspect_ratio self in
  let layer := lower_seismogenic_depth self - upper_seismogenic_depth self in
  0 <= dip np <= 90 ->
  (_get_rupture_dimensions self mag np = inl ValueError <-> product < 0)
  /\ (_get_rupture_dimensions self mag np = inl ZeroDivisionError
      <-> product = 0
          \/ (0 < product /\ (dip np = 0 \/ (layer = 0 /\ 0 < area))))
  /\ _get_rupture_dimensions self mag np <> inl AssertionError
  /\ _get_rupture_dimensions self mag np <> inl RuntimeError.
Proof.
  intros area product layer Hdip.
  pose proof (sin_dip_zero _ Hdip) as Hsine.
  pose proof (rupture_dimensions_outcomes self mag np) as H.
  cbv zeta in H. fold area product layer in H.
  set (sine := sin (math_radians (dip np))) in *.
  split; [|split; [|split]].
  - split.
    + intros E. rewrite E in H. exact H.
    + intros Hneg.
      destruct (_get_rupture_dimensions self mag np) as [[] | dims];
        try reflexivity; exfalso; try exact H.
      * destruct H as [H | [H _]]; lra.
      * destruct H as [H _]; lra.
  - split.
    + intros E. rewrite E in H.
      destruct H as [H | (Hp & [Hs | Hl])];
        [left; exact H | right | right]; (split; [exact Hp|]).
      * left. apply Hsine, Hs.
      * right. exact Hl.
    + intros Hz.
      destruct (_get_rupture_dimensions self mag np) as [[] | dims];
        try reflexivity; exfalso; try exact H.
      * destruct Hz as [Hz | [Hz _]]; lra.
      * destruct H as (Hp & Hs & Hl).
        destruct Hz as [Hz | [_ [Hz | Hz]]];
          [lra | apply Hs, Hsine, Hz | auto].
  - intros E. rewrite E in H. exact H.
  - intros E. rewrite E in H. exact H.
Qed.

(** A horizontal nodal plane: the division by the sine of the dip fails. *)
Lemma rupture_dimensions_exceptions_witness :
  _get_rupture_dimensions example_source 5 (mkNodalPlane 0 0 0)
  = inl ZeroDivisionError.
Proof.
  apply (proj2 (proj1 (proj2 (rupture_dimensions_exceptions example_source 5
                                (mkNodalPlane 0 0 0) ltac:(simpl; lra))))).
  right. simpl. split; [lra|]. left. reflexivity.
Defined.

(** ** _get_rupture_surface *)

Section SurfaceMore.

Variable point_at : Point -> R -> R -> R -> Point.

(** The depths of the four corners, in terms of the hypocenter depth, the
    vertical shift and the projected height of the rupture. *)
Lemma rupture_surface_corner_depths
  (self : PointSource) (mag : R) (np : NodalPlane) (hypocenter : Point) :
  (forall origin h v az, depth (point_at origin h v az) = depth origin + v) ->
  0 < get_median_area self mag (rake np) ->
  0 < rupture_aspect_ratio self -> 0 < dip np <= 90 ->
  upper_seismogenic_depth self < lower_seismogenic_depth self ->
  upper_seismogenic_depth self <= depth hypocenter
    <= lower_seismogenic_depth self ->
  exists rup_length rup_width surface,
    _get_rupture_dimensions self mag np = inr (rup_length, rup_width)
    /\ _get_rupture_surface point_at self mag np hypocenter = inr surface
    /\ (let height := rup_width * sin (math_radians (dip np)) in
        let center :=
          depth hypocenter + vertical_shift self hypocenter (height / 2) in
        0 < height
          <= lower_seismogenic_depth self - upper_seismogenic_depth self
        /\ depth (top_left surface) = center - height / 2
        /\ depth (top_right surface) = center - height / 2
        /\ depth (bottom_right surface) = center + height / 2
        /\ depth (bottom_left surface) = center + height / 2).
Proof.
  intros Hpt Harea Hasp Hdip Hlayer Hdepth.
  destruct (rupture_surface_inr point_at self mag np hypocenter
              Harea Hasp Hdip Hlayer Hdepth)
    as (l & w & Hdim & Hheight & Hsurface).
  exists l, w. eexists. split; [exact Hdim|]. split; [exact Hsurface|].
  cbv zeta. split; [exact Hheight|].
  unfold surface_around. cbn [top_left top_right bottom_right bottom_left].
  repeat split; rewrite !Hpt, rupture_center_depth by exact Hpt; lra.
Qed.

(** X14: the rupture rectangle in depth, in exact arithmetic.  The two top
    corners are at one depth and the two bottom corners at one depth, and
    the bottom edge lies below the top edge by the width times the sine of
    the dip, whether the rupture was shifted or not. *)
Theorem rupture_surface_edges
  (self : PointSource) (mag : R) (np : NodalPlane) (hypocenter : Point) :
  (forall origin h v az, depth (point_at origin h v az) = depth origin + v) ->
  0 < get_median_area self mag (rake np) ->
  0 < rupture_aspect_ratio self -> 0 < dip np <= 90 ->
  upper_seismogenic_depth self < lower_seismogenic_depth self ->
  upper_seismogenic_depth self <= depth hypocenter
    <= lower_seismogenic_depth self ->
  exists rup_length rup_width surface,
    _get_rupture_dimensions self mag np = inr (rup_length, rup_width)
    /\ _get_rupture_surface point_at self mag np hypocenter = inr surface
    /\ depth (top_left surface) = depth (top_right surface)
    /\ depth (bottom_left surface) = depth (bottom_right surface)
    /\ depth (bottom_right surface) - depth (top_right surface)
       = rup_width * sin (math_radians (dip np)).
Proof.
  intros Hpt Harea Hasp Hdip Hlayer Hdepth.
  destruct (rupture_surface_corner_depths self mag np hypocenter
              Hpt Harea Hasp Hdip Hlayer Hdepth)
    as (l & w & surface & Hdim & Hsurface & Hcorners).
  cbv zeta in Hcorners.
  destruct Hcorners as (Hheight & Htl & Htr & Hbr & Hbl).
  exists l, w, surface.
  split; [exact Hdim|]. split; [exact Hsurface|].
  rewrite Htl, Htr, Hbr, Hbl.
  split; [reflexivity|]. split; [reflexivity|]. lra.
Qed.

(** X16: the assertion comes first.  [_get_rupture_surface] raises
    [AssertionError] exactly when the hypocenter depth is outside the
    seismogenic layer, whatever the magnitude and the nodal plane are; with
    the hypocenter inside, it raises what [_get_rupture_dimensions] raises
    and returns a surface when that returns. *)
Theorem rupture_surface_exceptions
  (self : PointSource) (mag : R) (np : NodalPlane) (hypocenter : Point) :
  let inside :=
    upper_seismogenic_depth self <= depth hypocenter
      <= lower_seismogenic_depth self in
  (_get_rupture_surface point_at self mag np hypocenter = inl AssertionError
   <-> ~ inside)
  /\ (inside ->
      forall e,
        _get_rupture_surface point_at self mag np hypocenter = inl e
        <-> _get_rupture_dimensions self mag np = inl e)
  /\ (inside ->
      (exists surface,
          _get_rupture_surface point_at self mag np hypocenter = inr surface)
      <-> exists dims, _get_rupture_dimensions self mag np = inr dims).
Proof.
  intros inside. unfold inside.
  pose proof (rupture_dimensions_outcomes self mag np) as Hdims.
  cbv zeta in Hdims.
  unfold _get_rupture_surface, Rgeb.
  destruct (Rle_dec (upper_seismogenic_depth self) (depth hypocenter))
    as [Hup | Hup].
  - rewrite (Rleb_true _ _ Hup).
    destruct (Rle_dec (depth hypocenter) (lower_seismogenic_depth self))
      as [Hlo | Hlo].
    + rewrite (Rleb_true _ _ Hlo). cbn [andb py_assert bind ret].
      destruct (_get_rupture_dimensions self mag np) as [e0 | [l w]];
        cbn [bind ret].
      * split; [|split].
        -- split; [|intros H; exfalso; apply H; split; assumption].
           intros E. injection E as ->. contradiction.
        -- intros _ e. split; intros E; injection E as ->; reflexivity.
        -- intros _. split; intros [x Hx]; discriminate Hx.
      * split; [|split].
        -- split; [discriminate|].
           intros H; exfalso; apply H; split; assumption.
        -- intros _ e. split; discriminate.
        -- intros _. split; intros _; eexists; reflexivity.
    + rewrite (Rleb_false _ _ Hlo). cbn [andb py_assert bind raise].
      split; [|split].
      * split; [intros _ [_ H]; contradiction | reflexivity].
      * intros [_ H]; contradiction.
      * intros [_ H]; contradiction.
  - rewrite (Rleb_false _ _ Hup). cbn [andb py_assert bind raise].
    split; [|split].
    * split; [intros _ [H _]; contradiction | reflexivity].
    * intros [H _]; contradiction.
    * intros [H _]; contradiction.
Qed.

End SurfaceMore.

Lemma rupture_surface_edges_witness :
  exists rup_width surface,
    _get_rupture_surface example_point_at example_source 5 example_plane
      (mkPoint 0 0 4) = inr surface
    /\ depth (top_left surface) = depth (top_right surface)
    /\ depth (bottom_right surface) - depth (top_right surface)
       = rup_width * sin (math_radians 90).
Proof.
  destruct (rupture_surface_edges example_point_at example_source
              5 example_plane (mkPoint 0 0 4))
    as (l & w & surface & _ & Hsurface & Htop & _ & Hheight);
    simpl; try lra.
  - intros origin h v az. reflexivity.
  - exists w, surface. split; [exact Hsurface|].
    split; [exact Htop | exact Hheight].
Defined.

(** ** The azimuths of _get_rupture_surface *)

Lemma py_mod_range (x : R) : 0 <= py_mod x 360 < 360.
Proof.
  unfold py_mod.
  destruct (base_Int_part (x / 360)) as [Hlo Hhi].
  assert (Hx : x = 360 * (x / 360)) by (field; lra).
  set (n := IZR (Int_part (x / 360))) in *.
  split; lra.
Qed.

Lemma py_mod_unique (x : R) (k : Z) :
  0 <= x - 360 * IZR k < 360 -> py_mod x 360 = x - 360 * IZR k.
Proof.
  intros [Hlo Hhi]. unfold py_mod.
  assert (Hx : x = 360 * (x / 360)) by (field; lra).
  rewrite <- (Int_part_spec (x / 360) k); [reflexivity|].
  split; lra.
Qed.

(** Successive quarter turns from a strike in [[0, 360)]: the strike plus
    90, 180 and 270, each less a whole turn when it would reach 360. *)
Lemma quarter_turns_of_strike (azimuth_right : R) :
  let azimuth_down := py_mod (azimuth_right + 90) 360 in
  let azimuth_left := py_mod (azimuth_down + 90) 360 in
  let azimuth_up := py_mod (azimuth_left + 90) 360 in
  0 <= azimuth_right < 360 ->
  azimuth_down
  = (if Rlt_dec azimuth_right 270 then azimuth_right + 90
     else azimuth_right - 270)
  /\ azimuth_left
     = (if Rlt_dec azimuth_right 180 then azimuth_right + 180
        else azimuth_right - 180)
  /\ azimuth_up
     = (if Rlt_dec azimuth_right 90 then azimuth_right + 270
        else azimuth_right - 90).
Proof.
  intros azimuth_down azimuth_left azimuth_up Hstrike.
  assert (Hsmall : forall x, 0 <= x < 360 -> py_mod x 360 = x).
  { intros x Hx. rewrite (py_mod_unique x 0); simpl; lra. }
  assert (Hlarge : forall x, 360 <= x < 720 -> py_mod x 360 = x - 360).
  { intros x Hx. rewrite (py_mod_unique x 1); simpl; lra. }
  assert (Hdown :
            azimuth_down
            = if Rlt_dec azimuth_right 270 then azimuth_right + 90
              else azimuth_right - 270).
  { unfold azimuth_down. destruct (Rlt_dec azimuth_right 270) as [H | H].
    - apply Hsmall. lra.
    - rewrite Hlarge; lra. }
  assert (Hleft :
            azimuth_left
            = if Rlt_dec azimuth_right 180 then azimuth_right + 180
              else azimuth_right - 180).
  { unfold azimuth_left. rewrite Hdown.
    destruct (Rlt_dec azimuth_right 270) as [H270 | H270];
      destruct (Rlt_dec azimuth_right 180) as [H180 | H180]; try lra.
    - rewrite Hsmall; lra.
    - rewrite Hlarge; lra.
    - rewrite Hsmall; lra. }
  assert (Hup :
            azimuth_up
            = if Rlt_dec azimuth_right 90 then azimuth_right + 270
              else azimuth_right - 90).
  { unfold azimuth_up. rewrite Hleft.
    destruct (Rlt_dec azimuth_right 180) as [H180 | H180];
      destruct (Rlt_dec azimuth_right 90) as [H90 | H90]; try lra.
    - rewrite Hsmall; lra.
    - rewrite Hlarge; lra.
    - rewrite Hsmall; lra. }
  auto.
Qed.

Section AzimuthFacts.

Variable point_at : Point -> R -> R -> R -> Point.

(** X17: the azimuths of the steps that lead to the corners.  For a strike
    in [[0, 360)] and under the preconditions, [_get_rupture_surface]
    returns the surface built with the strike as the azimuth to the right,
    the strike plus 90 as the azimuth down, plus 180 as the azimuth to the
    left and plus 270 as the azimuth up, each less a whole turn when it
    would reach 360; all three are angles in [[0, 360)]. *)
Theorem rupture_surface_azimuths
  (self : PointSource) (mag : R) (np : NodalPlane) (hypocenter : Point) :
  let rdip := math_radians (dip np) in
  let azimuth_right := strike np in
  let azimuth_down :=
    if Rlt_dec azimuth_right 270 then azimuth_right + 90
    else azimuth_right - 270 in
  let azimuth_left :=
    if Rlt_dec azimuth_right 180 then azimuth_right + 180
    else azimuth_right - 180 in
  let azimuth_up :=
    if Rlt_dec azimuth_right 90 then azimuth_right + 270
    else azimuth_right - 90 in
  0 <= strike np < 360 ->
  0 < get_median_area self mag (rake np) ->
  0 < rupture_aspect_ratio self -> 0 < dip np <= 90 ->
  upper_seismogenic_depth self < lower_seismogenic_depth self ->
  upper_seismogenic_depth self <= depth hypocenter
    <= lower_seismogenic_depth self ->
  (0 <= azimuth_down < 360 /\ 0 <= azimuth_left < 360
   /\ 0 <= azimuth_up < 360)
  /\ exists rup_length rup_width,
       _get_rupture_dimensions self mag np = inr (rup_length, rup_width)
       /\ _get_rupture_surface point_at self mag np hypocenter
          = inr (surface_around point_at self np
                   (rupture_center_of point_at hypocenter
                      (vertical_shift self hypocenter
                         (rup_width * sin rdip / 2))
                      rdip azimuth_up azimuth_down)
                   rup_length (rup_width * cos rdip) (rup_width * sin rdip)
                   azimuth_right azimuth_down azimuth_left azimuth_up).
Proof.
  intros rdip azimuth_right azimuth_down azimuth_left azimuth_up
    Hstrike Harea Hasp Hdip Hlayer Hdepth.
  split.
  { unfold azimuth_down, azimuth_left, azimuth_up, azimuth_right.
    destruct (Rlt_dec (strike np) 270), (Rlt_dec (strike np) 180),
      (Rlt_dec (strike np) 90); lra. }
  destruct (rupture_surface_inr point_at self mag np hypocenter
              Harea Hasp Hdip Hlayer Hdepth)
    as (l & w & Hdim & _ & Hsurface).
  destruct (quarter_turns_of_strike (strike np) Hstrike)
    as (Hdown & Hleft & Hup).
  cbv zeta in Hsurface.
  rewrite Hup, Hleft, Hdown in Hsurface.
  exists l, w. split; [exact Hdim | exact Hsurface].
Qed.

End AzimuthFacts.

(** The example plane strikes north: down is east, left is south and up is
    west. *)
Lemma rupture_surface_azimuths_witness :
  exists rup_length rup_width rupture_center,
    _get_rupture_surface example_point_at example_source 5 example_plane
      (mkPoint 0 0 4)
    = inr (surface_around example_point_at example_source example_plane
             rupture_center rup_length
             (rup_width * cos (math_radians 90))
             (rup_width * sin (math_radians 90))
             0 (0 + 90) (0 + 180) (0 + 270)).
Proof.
  destruct (rupture_surface_azimuths example_point_at example_source 5
              example_plane (mkPoint 0 0 4))
    as (_ & l & w & _ & Hsurface); simpl; try lra.
  simpl in Hsurface.
  destruct (Rlt_dec 0 270) as [_ | H]; [|lra].
  destruct (Rlt_dec 0 180) as [_ | H]; [|lra].
  destruct (Rlt_dec 0 90) as [_ | H]; [|lra].
  eexists l, w, _. exact Hsurface.
Defined.

(** ** _get_max_rupture_projection_radius *)

(** The loop returns the greatest of the starting radius and the radii of
    the nodal planes. *)
Lemma max_radius_loop_spec (self : PointSource) (max_mag : R)
  (data : list (R * NodalPlane)) :
  0 < rupture_aspect_ratio self ->
  upper_seismogenic_depth self < lower_seismogenic_depth self ->
  (forall np_prob np, In (np_prob, np) data ->
                      0 < get_median_area self max_mag (rake np)
                      /\ 0 < dip np <= 90) ->
  forall start,
  exists max_radius,
    max_radius_loop self max_mag data start = inr max_radius
    /\ start <= max_radius
    /\ (forall np_prob np, In (np_prob, np) data ->
          exists rup_length rup_width,
            _get_rupture_dimensions self max_mag np
            = inr (rup_length, rup_width)
            /\ projection_radius rup_length rup_width (dip np) <= max_radius)
    /\ (max_radius = start
        \/ exists np_prob np rup_length rup_width,
             In (np_prob, np) data
             /\ _get_rupture_dimensions self max_mag np
                = inr (rup_length, rup_width)
             /\ max_radius = projection_radius rup_length rup_width (dip np)).
Proof.
  intros Hasp Hlayer.
  induction data as [|[np_prob np] rest IH]; intros Hdata start.
  - exists start. split; [reflexivity|]. split; [lra|].
    split; [intros ? ? []|]. left. reflexivity.
  - destruct (Hdata np_prob np (or_introl eq_refl)) as [Harea Hdip].
    destruct (rupture_dimensions_inr self max_mag np Harea Hasp Hdip Hlayer)
      as (l & w & Hdim & _).
    cbn [max_radius_loop]. rewrite Hdim. cbn [bind ret]. unfold math_sqrt.
    set (sq := l ^ 2 + (w * cos (math_radians (dip np))) ^ 2).
    assert (Hsq : 0 <= sq).
    { unfold sq. pose proof (pow2_ge_0 l).
      pose proof (pow2_ge_0 (w * cos (math_radians (dip np)))). lra. }
    destruct (Rlt_dec sq 0) as [Hneg | _]; [lra|]. cbn [bind ret].
    assert (Hradius : sqrt sq / 2 = projection_radius l w (dip np))
      by reflexivity.
    destruct (IH (fun p n H => Hdata p n (or_intror H))
                (if Rgt_dec (sqrt sq / 2) start then sqrt sq / 2 else start))
      as (m & Hrun & Hstart & Hbound & Hattained).
    exists m. split; [exact Hrun|].
    assert (Hboth : start <= m /\ sqrt sq / 2 <= m).
    { destruct (Rgt_dec (sqrt sq / 2) start); lra. }
    split; [lra|]. split.
    + intros p n [E | Hin].
      * injection E as <- <-. exists l, w.
        split; [exact Hdim | rewrite <- Hradius; lra].
      * exact (Hbound p n Hin).
    + destruct Hattained as [Hm | (p & n & l' & w' & Hin & Hd & Hm)].
      * destruct (Rgt_dec (sqrt sq / 2) start).
        -- right. exists np_prob, np, l, w.
           split; [left; reflexivity|]. split; [exact Hdim | lra].
        -- left. exact Hm.
      * right. exists p, n, l', w'. split; [right; exact Hin | auto].
Qed.

(** X18: the enclosing radius.  A source without magnitude bins makes the
    function raise [IndexError].  Otherwise, under the preconditions, it
    returns a radius computed for the last magnitude bin only: that radius
    is not negative, it is at least the half diagonal of the surface
    projection of the rupture of every nodal plane, and it is the half
    diagonal of one of them unless there is no nodal plane, when it is
    zero. *)
Theorem max_rupture_projection_radius_spec (self : PointSource) :
  (get_annual_occurrence_rates self = [] ->
   _get_max_rupture_projection_radius self = inl IndexError)
  /\ (forall bins max_mag rate,
        get_annual_occurrence_rates self = bins ++ [(max_mag, rate)] ->
        0 < rupture_aspect_ratio self ->
        upper_seismogenic_depth self < lower_seismogenic_depth self ->
        (forall np_prob np,
            In (np_prob, np) (nodal_plane_distribution self) ->
            0 < get_median_area self max_mag (rake np)
            /\ 0 < dip np <= 90) ->
        exists max_radius,
          _get_max_rupture_projection_radius self = inr max_radius
          /\ 0 <= max_radius
          /\ (forall np_prob np,
                In (np_prob, np) (nodal_plane_distribution self) ->
                exists rup_length rup_width,
                  _get_rupture_dimensions self max_mag np
                  = inr (rup_length, rup_width)
                  /\ projection_radius rup_length rup_width (dip np)
                     <= max_radius)
          /\ (nodal_plane_distribution self = [] -> max_radius = 0)
          /\ (nodal_plane_distribution self <> [] ->
              exists np_prob np rup_length rup_width,
                In (np_prob, np) (nodal_plane_distribution self)
                /\ _get_rupture_dimensions self max_mag np
                   = inr (rup_length, rup_width)
                /\ max_radius
                   = projection_radius rup_length rup_width (dip np))).
Proof.
  split.
  - intros Hempty. unfold _get_max_rupture_projection_radius.
    rewrite Hempty. reflexivity.
  - intros bins max_mag rate Hrates Hasp Hlayer Hplanes.
    destruct (max_radius_loop_spec self max_mag
                (nodal_plane_distribution self) Hasp Hlayer Hplanes 0)
      as (m & Hrun & Hstart & Hbound & Hattained).
    exists m. unfold _get_max_rupture_projection_radius.
    rewrite Hrates, rev_unit, Hrun.
    split; [reflexivity|]. split; [exact Hstart|]. split; [exact Hbound|].
    split.
    + intros Hnone. rewrite Hnone in Hrun. cbn in Hrun.
      injection Hrun as <-. reflexivity.
    + intros Hsome.
      destruct Hattained as [Hm | Hm]; [|exact Hm].
      destruct (nodal_plane_distribution self) as [|[np_prob np] rest] eqn:E;
        [contradiction|].
      destruct (Hbound np_prob np (or_introl eq_refl))
        as (l & w & Hdim & Hle).
      destruct (Hplanes np_prob np (or_introl eq_refl)) as [Harea Hdip].
      exfalso.
      assert (Hl : 0 < l).
      { destruct (rupture_dimensions_inr self max_mag np
                    Harea Hasp Hdip Hlayer)
          as (l2 & w2 & Hd2 & Hcase & Hlen2 & Hmax2).
        rewrite Hdim in Hd2. injection Hd2 as <- <-.
        destruct Hcase as [(_ & -> & _) | (_ & -> & _)];
          [exact Hlen2 | apply Rdiv_lt_0_compat; assumption]. }
      assert (Hpos : 0 < projection_radius l w (dip np)).
      { unfold projection_radius.
        apply Rdiv_lt_0_compat; [|lra]. apply sqrt_lt_R0.
        pose proof (pow2_ge_0 (w * cos (math_radians (dip np)))).
        assert (0 < l ^ 2) by (apply pow_lt; exact Hl).
        lra. }
      lra.
Qed.

Lemma max_rupture_projection_radius_spec_witness :
  exists max_radius,
    _get_max_rupture_projection_radius example_source = inr max_radius
    /\ 0 <= max_radius.
Proof.
  destruct (proj2 (max_rupture_projection_radius_spec example_source)
              [] 5 1 eq_refl)
    as (m & Hrun & Hpos & _).
  - simpl. lra.
  - simpl. lra.
  - intros np_prob np [E | []]. injection E as <- <-. simpl. lra.
  - exists m. split; [exact Hrun | exact Hpos].
Defined.

(** ** _iter_ruptures_at_location *)

Lemma sum_list_app (xs ys : list R) :
  sum_list (xs ++ ys) = sum_list xs + sum_list ys.
Proof.
  induction xs as [|x xs IH]; simpl; [lra | rewrite IH; lra].
Qed.

Lemma sum_list_flat_map {X C : Type} (f : X -> list C) (g : C -> R)
  (h : X -> R) (xs : list X) :
  (forall x, sum_list (map g (f x)) = h x) ->
  sum_list (map g (flat_map f xs)) = sum_list (map h xs).
Proof.
  intros Hf. induction xs as [|x xs IH]; simpl; [reflexivity|].
  rewrite map_app, sum_list_app, Hf, IH. reflexivity.
Qed.

Lemma sum_list_scale {X : Type} (k : R) (g : X -> R) (xs : list X) :
  sum_list (map (fun x => k * g x) xs) = k * sum_list (map g xs).
Proof.
  induction xs as [|x xs IH]; simpl; [lra | rewrite IH; lra].
Qed.

(** The rates of the combinations add up to the product of the three
    sums. *)
Lemma combinations_total_rate (self : PointSource) (factor : R) :
  sum_list (map (fun c => c_mag_occ_rate c * c_np_prob c * c_hc_prob c
                          * factor)
              (combinations self))
  = sum_list (map snd (get_annual_occurrence_rates self))
    * sum_list (map fst (nodal_plane_distribution self))
    * sum_list (map fst (hypocenter_distribution self))
    * factor.
Proof.
  unfold combinations.
  set (H := sum_list (map fst (hypocenter_distribution self))).
  set (N := sum_list (map fst (nodal_plane_distribution self))).
  rewrite (sum_list_flat_map _ _ (fun mr => (N * H * factor) * snd mr)).
  - rewrite sum_list_scale. lra.
  - intros [mag rate].
    rewrite (sum_list_flat_map _ _
               (fun pn => (rate * H * factor) * fst pn)).
    + rewrite sum_list_scale. fold N. simpl. lra.
    + intros [np_prob np]. rewrite map_map.
      rewrite (map_ext _ (fun ph => (rate * np_prob * factor) * fst ph))
        by (intros [hc_prob hc_depth]; simpl; lra).
      rewrite sum_list_scale. fold H. simpl. lra.
Qed.

Lemma Forall2_map_eq {A B C : Type} (rel : A -> B -> Prop)
  (f : A -> C) (g : B -> C) (xs : list A) (ys : list B) :
  (forall a b, rel a b -> f a = g b) ->
  Forall2 rel xs ys -> map f xs = map g ys.
Proof.
  intros Hrel. induction 1 as [|a b xs ys Hab _ IH]; simpl;
    [reflexivity | rewrite (Hrel _ _ Hab), IH; reflexivity].
Qed.

Section EnumerationMore.

Variable point_at : Point -> R -> R -> R -> Point.
Variable TOM : Type.

(** A run of the generator on a source whose tables are valid: it ends
    normally, and what it yields matches the combinations, each of which
    comes from the three tables. *)
Lemma iter_ruptures_run (self : PointSource)
  (temporal_occurrence_model : TOM) (location : Point)
  (rate_scaling_factor : option R) :
  let factor := match rate_scaling_factor with Some f => f | None => 1 end in
  0 < factor ->
  0 < rupture_aspect_ratio self ->
  upper_seismogenic_depth self < lower_seismogenic_depth self ->
  (forall prob d, In (prob, d) (hypocenter_distribution self) ->
                  upper_seismogenic_depth self <= d
                  <= lower_seismogenic_depth self) ->
  (forall mag rate np_prob np,
      In (mag, rate) (get_annual_occurrence_rates self) ->
      In (np_prob, np) (nodal_plane_distribution self) ->
      0 < get_median_area self mag (rake np)) ->
  (forall np_prob np, In (np_prob, np) (nodal_plane_distribution self) ->
                      0 < dip np <= 90) ->
  exists ruptures,
    _iter_ruptures_at_location point_at TOM self temporal_occurrence_model
      location rate_scaling_factor
    = (ruptures, None)
    /\ Forall2
         (fun c r =>
            rupture_of_combination point_at self temporal_occurrence_model
              location factor c r
            /\ In (c_mag c, c_mag_occ_rate c) (get_annual_occurrence_rates self)
            /\ In (c_np_prob c, c_np c) (nodal_plane_distribution self)
            /\ In (c_hc_prob c, c_hc_depth c) (hypocenter_distribution self))
         (combinations self) ruptures.
Proof.
  intros factor Hfactor Haspect Hlayer Hdepths Harea Hdip.
  unfold _iter_ruptures_at_location, combinations. fold factor.
  destruct (Rlt_dec 0 factor) as [_ | Hn]; [|contradiction].
  apply gen_for_Forall2. intros [mag rate] Hmag.
  apply gen_for_Forall2. intros [np_prob np] Hnp.
  rewrite <- flat_map_singleton.
  apply gen_for_Forall2. intros [hc_prob hc_depth] Hhc.
  destruct (rupture_surface_inr point_at self mag np
              (mkPoint (longitude location) (latitude location) hc_depth))
    as (l & w & _ & _ & Hsurface).
  - exact (Harea mag rate np_prob np Hmag Hnp).
  - exact Haspect.
  - exact (Hdip np_prob np Hnp).
  - exact Hlayer.
  - exact (Hdepths hc_prob hc_depth Hhc).
  - rewrite Hsurface. eexists. split; [reflexivity|].
    constructor; [|constructor].
    unfold rupture_of_combination, py_float. cbn.
    repeat split; assumption.
Qed.

(** X19: the rates are shared out, not lost.  On a source with valid
    tables the occurrence rates of all the ruptures yielded add up to the
    sum of the rates of the magnitude bins, times the sum of the
    probabilities of the nodal planes, times the sum of the probabilities of
    the hypocenter depths, times the rate scaling factor. *)
Theorem iter_ruptures_total_rate (self : PointSource)
  (temporal_occurrence_model : TOM) (location : Point)
  (rate_scaling_factor : option R) :
  let factor := match rate_scaling_factor with Some f => f | None => 1 end in
  0 < factor ->
  0 < rupture_aspect_ratio self ->
  upper_seismogenic_depth self < lower_seismogenic_depth self ->
  (forall prob d, In (prob, d) (hypocenter_distribution self) ->
                  upper_seismogenic_depth self <= d
                  <= lower_seismogenic_depth self) ->
  (forall mag rate np_prob np,
      In (mag, rate) (get_annual_occurrence_rates self) ->
      In (np_prob, np) (nodal_plane_distribution self) ->
      0 < get_median_area self mag (rake np)) ->
  (forall np_prob np, In (np_prob, np) (nodal_plane_distribution self) ->
                      0 < dip np <= 90) ->
  exists ruptures,
    _iter_ruptures_at_location point_at TOM self temporal_occurrence_model
      location rate_scaling_factor
    = (ruptures, None)
    /\ sum_list (map rup_occurrence_rate ruptures)
       = sum_list (map snd (get_annual_occurrence_rates self))
         * sum_list (map fst (nodal_plane_distribution self))
         * sum_list (map fst (hypocenter_distribution self))
         * factor.
Proof.
  intros factor Hfactor Haspect Hlayer Hdepths Harea Hdip.
  destruct (iter_ruptures_run self temporal_occurrence_model location
              rate_scaling_factor Hfactor Haspect Hlayer Hdepths Harea Hdip)
    as (ruptures & Hrun & Hrel).
  exists ruptures. split; [exact Hrun|].
  rewrite <- combinations_total_rate.
  f_equal. symmetry.
  refine (Forall2_map_eq _ _ _ _ _ _ Hrel).
  intros c r [(_ & _ & _ & _ & _ & _ & Hrate & _) _].
  symmetry. exact Hrate.
Qed.

(** A loop stops with an exception that one of its turns stopped with. *)
Lemma gen_for_status {X A : Type} (P : exn -> Prop) (xs : list X)
  (body : X -> gen A) :
  (forall x, In x xs ->
             match snd (body x) with Some e => P e | None => True end) ->
  match snd (gen_for xs body) with Some e => P e | None => True end.
Proof.
  induction xs as [|x xs IH]; intros Hbody; [exact I|].
  cbn [gen_for].
  pose proof (Hbody x (or_introl eq_refl)) as Hx.
  destruct (body x) as [out [e |]]; cbn [snd] in *; [exact Hx|].
  assert (Hrest :
            match snd (gen_for xs body) with Some e => P e | None => True end)
    by (apply IH; intros y Hy; apply Hbody; right; exact Hy).
  destruct (gen_for xs body) as [out' status]. exact Hrest.
Qed.

(** X11: what the constructor checks, the enumeration can rely on.  The
    hypocenter depths of a source that [__init__] returned pass the
    assertion of [_get_rupture_surface], so the enumeration of its ruptures,
    with any location and any positive factor, never stops with
    [AssertionError]: if it stops with an exception at all, this is the
    [ValueError] or the [ZeroDivisionError] that [_get_rupture_dimensions]
    raises for a magnitude and a nodal plane of the source. *)
Theorem init_guards_enumeration (cls : source_class)
  (source_id name trt : String.string) (mfd : list (R * R)) (spacing : R)
  (msr : R -> R -> R) (aspect upper lower : R) (loc : Point)
  (npd : list (R * NodalPlane)) (hd : list (R * R)) (self : PointSource)
  (temporal_occurrence_model : TOM) (location : Point)
  (rate_scaling_factor : option R) :
  __init__ cls source_id name trt mfd spacing msr aspect upper lower loc
    npd hd = inr self ->
  0 < match rate_scaling_factor with Some f => f | None => 1 end ->
  match snd (_iter_ruptures_at_location point_at TOM self
               temporal_occurrence_model location rate_scaling_factor) with
  | None => True
  | Some e =>
      (e = ValueError \/ e = ZeroDivisionError)
      /\ exists mag rate np_prob np,
           In (mag, rate) (get_annual_occurrence_rates self)
           /\ In (np_prob, np) (nodal_plane_distribution self)
           /\ _get_rupture_dimensions self mag np = inl e
  end.
Proof.
  intros Hinit Hfactor.
  apply init_inr in Hinit as (-> & Hlayer & Hdepths).
  unfold _iter_ruptures_at_location.
  destruct (Rlt_dec 0 _) as [_ | Hn]; [|contradiction].
  cbn [get_annual_occurrence_rates nodal_plane_distribution
         hypocenter_distribution].
  apply gen_for_status with
    (P := fun e =>
            (e = ValueError \/ e = ZeroDivisionError)
            /\ exists mag rate np_prob np,
                 In (mag, rate) mfd /\ In (np_prob, np) npd
                 /\ _get_rupture_dimensions
                      (mkPointSource cls source_id name trt mfd spacing msr
                         aspect upper lower loc npd hd) mag np = inl e).
  intros [mag rate] Hmag.
  apply gen_for_status. intros [np_prob np] Hnp.
  apply gen_for_status. intros [hc_prob hc_depth] Hhc.
  destruct (Hdepths hc_prob hc_depth Hhc) as [Hup Hlo].
  pose proof (rupture_dimensions_outcomes
                (mkPointSource cls source_id name trt mfd spacing msr
                   aspect upper lower loc npd hd) mag np) as Hdims.
  cbv zeta in Hdims.
  unfold _get_rupture_surface, Rgeb.
  cbn [upper_seismogenic_depth lower_seismogenic_depth depth].
  rewrite !Rleb_true by assumption. cbn [andb py_assert bind ret].
  destruct (_get_rupture_dimensions _ mag np) as [e | [l w]] eqn:Hrun;
    cbn [bind ret gen_raise gen_yield snd]; [|exact I].
  split.
  - destruct e; [contradiction | left | right | contradiction]; reflexivity.
  - exists mag, rate, np_prob, np. auto.
Qed.

(** Two loops whose turns yield the same up to [g] and end the same way
    yield the same up to [g] and end the same way. *)
Lemma gen_for_map {X A : Type} (g : A -> A) (xs : list X)
  (body body' : X -> gen A) :
  (forall x, In x xs ->
             body' x = (map g (fst (body x)), snd (body x))) ->
  gen_for xs body'
  = (map g (fst (gen_for xs body)), snd (gen_for xs body)).
Proof.
  induction xs as [|x xs IH]; intros Hbody; [reflexivity|].
  cbn [gen_for]. rewrite (Hbody x (or_introl eq_refl)).
  destruct (body x) as [out [e |]]; cbn [fst snd]; [reflexivity|].
  rewrite IH by (intros y Hy; apply Hbody; right; exact Hy).
  destruct (gen_for xs body) as [out' status]. cbn [fst snd].
  rewrite map_app. reflexivity.
Qed.

(** X21: the rate scaling factor scales the rates and nothing else.  For
    every source, valid or not, a call with a positive factor yields the
    ruptures of the call without a factor, in the same order, each with its
    occurrence rate multiplied by the factor, and it ends in the same way
    (normally, or with the same exception after the same number of
    ruptures). *)
Theorem iter_ruptures_scaling (self : PointSource)
  (temporal_occurrence_model : TOM) (location : Point) (factor : R) :
  0 < factor ->
  let unscaled :=
    _iter_ruptures_at_location point_at TOM self temporal_occurrence_model
      location None in
  _iter_ruptures_at_location point_at TOM self temporal_occurrence_model
    location (Some factor)
  = (map (scale_rate factor) (fst unscaled), snd unscaled).
Proof.
  intros Hfactor unscaled. unfold unscaled, _iter_ruptures_at_location.
  destruct (Rlt_dec 0 factor) as [_ | Hn]; [|contradiction].
  destruct (Rlt_dec 0 1) as [_ | Hn]; [|lra].
  apply gen_for_map. intros [mag rate] _.
  apply gen_for_map. intros [np_prob np] _.
  apply gen_for_map. intros [hc_prob hc_depth] _.
  destruct (_get_rupture_surface point_at self mag np _) as [e | surface];
    [reflexivity|].
  unfold gen_yield, scale_rate. cbn.
  do 3 f_equal. lra.
Qed.

End EnumerationMore.

Lemma iter_ruptures_scaling_witness :
  _iter_ruptures_at_location example_point_at unit example_source tt
    (mkPoint 0 0 0) (Some 2)
  = (map (scale_rate 2)
       (fst (iter_ruptures example_point_at unit example_source tt)),
     snd (iter_ruptures example_point_at unit example_source tt)).
Proof.
  apply (iter_ruptures_scaling example_point_at unit example_source tt
           (mkPoint 0 0 0) 2).
  lra.
Defined.

Lemma iter_ruptures_total_rate_witness :
  exists ruptures,
    iter_ruptures example_point_at unit example_source tt = (ruptures, None)
    /\ sum_list (map rup_occurrence_rate ruptures)
       = (1 + 0) * (1 + 0) * (1 / 2 + (1 / 2 + 0)) * 1.
Proof.
  refine (iter_ruptures_total_rate example_point_at unit example_source tt
            (mkPoint 0 0 0) None _ _ _ _ _ _); simpl.
  - lra.
  - lra.
  - lra.
  - intros prob d [E | [E | []]]; injection E as <- <-; lra.
  - intros mag rate np_prob np _ _. lra.
  - intros np_prob np [E | []]. injection E as <- <-. simpl. lra.
Defined.

Lemma init_guards_enumeration_witness :
  match snd (iter_ruptures example_point_at unit example_source tt) with
  | None => True
  | Some e =>
      (e = ValueError \/ e = ZeroDivisionError)
      /\ exists mag rate np_prob np,
           In (mag, rate) (get_annual_occurrence_rates example_source)
           /\ In (np_prob, np) (nodal_plane_distribution example_source)
           /\ _get_rupture_dimensions example_source mag np = inl e
  end.
Proof.
  apply (init_guards_enumeration example_point_at unit _ _ _ _ _ _ _ _ _ _ _
           _ _ example_source tt (mkPoint 0 0 0) None init_example_source).
  lra.
Defined.

End PointSrcMore.
